(** * Happens-before race detection for SDN traces (nsg-ethz/sts)

  A shallow embedding of

  - [sts/happensbefore/hb_race_detector.py]  (module [RaceDetector]),
  - [sts/happensbefore/hb_logger.py] and the trace events of
    [sts/happensbefore/hb_sts_events.py]     (module [Logger]),

  with the properties of the specification that concern them. *)

From stdpp Require Import base gmap sets list strings relations.
From Stdlib Require Import ZArith.

Open Scope Z_scope.

(** ** The directed graph of networkx, as far as the detector queries it *)

Module DiGraph.

(** [nx.DiGraph]: the detector only asks for paths and ancestors, which
    depend on the edge set alone.  Every event of the graph is a node, so a
    node without edges is simply absent from the edge list. *)
Definition t := list (Z * Z).

Definition edge (g : t) (u v : Z) : Prop := (u, v) ∈ g.

(** A directed path, possibly of length zero. *)
Definition path (g : t) : Z → Z → Prop := rtc (edge g).

Definition successors (g : t) (X : gset Z) : gset Z :=
  list_to_set ((filter (λ e, e.1 ∈ X) g).*2).

(** One level of the breadth-first search. *)
Definition bfs_step (g : t) (X : gset Z) : gset Z := X ∪ successors g X.

Fixpoint bfs (n : nat) (g : t) (X : gset Z) : gset Z :=
  match n with
  | O => X
  | S n' => bfs_step g (bfs n' g X)
  end.

(** The nodes reached from [s]: a search over [length g + 1] levels has
    stopped growing. *)
Definition descendants_or_self (g : t) (s : Z) : gset Z :=
  bfs (S (length g)) g {[ s ]}.

(** The nodes some edge points to; with the source, all a search can reach. *)
Definition targets (g : t) : gset Z := list_to_set (g.*2).

(** [nx.has_path(G, source, target)] *)
Definition has_path (g : t) (source target : Z) : bool :=
  bool_decide (target ∈ descendants_or_self g source).

Definition reverse (g : t) : t := (λ e, (e.2, e.1)) <$> g.

(** [nx.ancestors(G, source)]: the nodes with a path to [source], without
    [source] itself. *)
Definition ancestors (g : t) (source : Z) : gset Z :=
  descendants_or_self (reverse g) source ∖ {[ source ]}.

End DiGraph.

(** ** hb_race_detector.py *)

Module RaceDetector.

(** Modelled from the spec: the event classes of hb_events.py are not among
    the sources.  An operation nested in a handle event, as the detector
    reads it: [k.type] and the attributes [read_ops] asserts to be
    present. *)
Record Operation := mkOperation {
  type : string;
  op_eid : Z;
  flow_table : option string;
  flow_mod : option string
}.

(** Modelled from the spec: an event of the graph (hb_events.py), as the
    detector reads it.  [operations], [packet] and [in_port] are attributes
    only some event classes have ([hasattr]). *)
Record Event := mkEvent {
  eid : Z;
  dpid : Z;
  operations : option (list Operation);
  packet : option string;
  in_port : option Z
}.

#[global] Instance Operation_eq_dec : EqDecision Operation.
Proof. solve_decision. Defined.

#[global] Instance Event_eq_dec : EqDecision Event.
Proof. solve_decision. Defined.

(** A Python [set] of events: a list without repetitions, [add] being the
    only way elements enter it.  Nothing in the detector depends on the order
    of a set. *)
Definition EventSet := list Event.

Definition add (e : Event) (X : EventSet) : EventSet :=
  if decide (e ∈ X) then X else X ++ [e].

(** [Race = namedtuple('Race', ['rtype', 'i_event', 'i_op', 'k_event', 'k_op'])] *)
Record Race := mkRace {
  rtype : string;
  i_event : Event;
  i_op : Operation;
  k_event : Event;
  k_op : Operation
}.

#[global] Instance Race_eq_dec : EqDecision Race.
Proof. solve_decision. Defined.

(** Modelled from the spec: the graph object handed to the detector
    (hb_graph.py is not among the sources), of which the detector reads
    [graph.events] and the networkx graph [graph.g], whose nodes are the
    events' eids. *)
Record HappensBeforeGraph := mkGraph {
  events : list Event;
  g : DiGraph.t
}.

(** The attributes of a [RaceDetector] object. *)
Record t := mkDetector {
  graph : HappensBeforeGraph;
  read_operations : list (Event * Operation);
  write_operations : list (Event * Operation);
  races_harmful : list Race;
  races_commute : list Race;
  racing_events : EventSet;
  racing_events_harmful : EventSet;
  total_operations : Z;
  total_harmful : Z;
  total_commute : Z;
  total_filtered : Z;
  total_races : Z;
  filter_rw : bool
}.

(** [__init__(self, graph, filter_rw=False)] *)
Definition init (graph : HappensBeforeGraph) (filter_rw : bool) : t :=
  mkDetector graph [] [] [] [] [] [] 0 0 0 0 0 filter_rw.

(** Attribute assignments. *)
Definition set_graph (v : HappensBeforeGraph) (s : t) : t :=
  mkDetector v (read_operations s) (write_operations s) (races_harmful s)
    (races_commute s) (racing_events s) (racing_events_harmful s)
    (total_operations s) (total_harmful s) (total_commute s)
    (total_filtered s) (total_races s) (filter_rw s).

Definition set_read_operations (v : list (Event * Operation)) (s : t) : t :=
  mkDetector (graph s) v (write_operations s) (races_harmful s)
    (races_commute s) (racing_events s) (racing_events_harmful s)
    (total_operations s) (total_harmful s) (total_commute s)
    (total_filtered s) (total_races s) (filter_rw s).

Definition set_write_operations (v : list (Event * Operation)) (s : t) : t :=
  mkDetector (graph s) (read_operations s) v (races_harmful s)
    (races_commute s) (racing_events s) (racing_events_harmful s)
    (total_operations s) (total_harmful s) (total_commute s)
    (total_filtered s) (total_races s) (filter_rw s).

Definition set_races_harmful (v : list Race) (s : t) : t :=
  mkDetector (graph s) (read_operations s) (write_operations s) v
    (races_commute s) (racing_events s) (racing_events_harmful s)
    (total_operations s) (total_harmful s) (total_commute s)
    (total_filtered s) (total_races s) (filter_rw s).

Definition set_races_commute (v : list Race) (s : t) : t :=
  mkDetector (graph s) (read_operations s) (write_operations s)
    (races_harmful s) v (racing_events s) (racing_events_harmful s)
    (total_operations s) (total_harmful s) (total_commute s)
    (total_filtered s) (total_races s) (filter_rw s).

Definition set_racing_events (v : EventSet) (s : t) : t :=
  mkDetector (graph s) (read_operations s) (write_operations s)
    (races_harmful s) (races_commute s) v (racing_events_harmful s)
    (total_operations s) (total_harmful s) (total_commute s)
    (total_filtered s) (total_races s) (filter_rw s).

Definition set_racing_events_harmful (v : EventSet) (s : t) : t :=
  mkDetector (graph s) (read_operations s) (write_operations s)
    (races_harmful s) (races_commute s) (racing_events s) v
    (total_operations s) (total_harmful s) (total_commute s)
    (total_filtered s) (total_races s) (filter_rw s).

Definition set_total_operations (v : Z) (s : t) : t :=
  mkDetector (graph s) (read_operations s) (write_operations s)
    (races_harmful s) (races_commute s) (racing_events s)
    (racing_events_harmful s) v (total_harmful s) (total_commute s)
    (total_filtered s) (total_races s) (filter_rw s).

Definition set_total_harmful (v : Z) (s : t) : t :=
  mkDetector (graph s) (read_operations s) (write_operations s)
    (races_harmful s) (races_commute s) (racing_events s)
    (racing_events_harmful s) (total_operations s) v (total_commute s)
    (total_filtered s) (total_races s) (filter_rw s).

Definition set_total_commute (v : Z) (s : t) : t :=
  mkDetector (graph s) (read_operations s) (write_operations s)
    (races_harmful s) (races_commute s) (racing_events s)
    (racing_events_harmful s) (total_operations s) (total_harmful s) v
    (total_filtered s) (total_races s) (filter_rw s).

Definition set_total_filtered (v : Z) (s : t) : t :=
  mkDetector (graph s) (read_operations s) (write_operations s)
    (races_harmful s) (races_commute s) (racing_events s)
    (racing_events_harmful s) (total_operations s) (total_harmful s)
    (total_commute s) v (total_races s) (filter_rw s).

Definition set_total_races (v : Z) (s : t) : t :=
  mkDetector (graph s) (read_operations s) (write_operations s)
    (races_harmful s) (races_commute s) (racing_events s)
    (racing_events_harmful s) (total_operations s) (total_harmful s)
    (total_commute s) (total_filtered s) v (filter_rw s).

(** A method either returns, or an [assert] fails part-way; the object
    keeps the attributes assigned up to then. *)
Inductive outcome :=
| Done (s : t)
| AssertionError (s : t).

Definition state_of (o : outcome) : t :=
  match o with Done s | AssertionError s => s end.

(** A [for] loop whose body may fail an assertion. *)
Fixpoint for_each {A} (body : A → t → outcome) (l : list A) (s : t)
  : outcome :=
  match l with
  | [] => Done s
  | x :: l' =>
      match body x s with
      | Done s' => for_each body l' s'
      | AssertionError s' => AssertionError s'
      end
  end.

Definition hasattr {A} (o : option A) : bool :=
  match o with Some _ => true | None => false end.

(** [itertools.combinations(l, 2)] *)
Fixpoint combinations {A} (l : list A) : list (A * A) :=
  match l with
  | [] => []
  | x :: l' => (pair x <$> l') ++ combinations l'
  end.

(** [is_reachable] *)
Definition is_reachable (s : t) (source target : Event) : bool :=
  DiGraph.has_path (g (graph s)) (eid source) (eid target).

(** [is_ordered] *)
Definition is_ordered (s : t) (event other : Event) : bool :=
  let older := if eid event <? eid other then event else other in
  let newer := if eid event >? eid other then event else other in
  if is_reachable s newer older then true
  else if is_reachable s older newer then true
  else false.

(** [has_common_ancestor] *)
Definition has_common_ancestor (s : t) (event other : Event) : bool :=
  let event_ancs := DiGraph.ancestors (g (graph s)) (eid event) in
  let other_ancs := DiGraph.ancestors (g (graph s)) (eid other) in
  let event_ancs := event_ancs ∪ {[ eid event ]} in
  let other_ancs := other_ancs ∪ {[ eid other ]} in
  negb (bool_decide (event_ancs ## other_ancs)).

(** The body of the inner loop of [read_ops]. *)
Definition read_ops_body (i : Event) (k : Operation) (s : t) : outcome :=
  if String.eqb (type k) "TraceSwitchFlowTableWrite" then
    if negb (hasattr (flow_table k)) then AssertionError s
    else if negb (hasattr (flow_mod k)) then AssertionError s
    else Done (set_write_operations (write_operations s ++ [(i, k)]) s)
  else if String.eqb (type k) "TraceSwitchFlowTableRead" then
    if negb (hasattr (flow_table k)) then AssertionError s
    else if negb (hasattr (flow_mod k)) then AssertionError s
    else if negb (hasattr (packet i)) then AssertionError s
    else if negb (hasattr (in_port i)) then AssertionError s
    else Done (set_read_operations (read_operations s ++ [(i, k)]) s)
  else Done s.

(** [read_ops] *)
Definition read_ops (s : t) : outcome :=
  let s := set_read_operations [] s in
  let s := set_write_operations [] s in
  for_each
    (λ i s,
       match operations i with
       | Some ops => for_each (read_ops_body i) ops s
       | None => Done s
       end)
    (events (graph s)) s.

(** [event is None or event == i_event or event == k_event] *)
Definition involves (event : option Event) (i_event k_event : Event)
  : bool :=
  match event with
  | None => true
  | Some e => bool_decide (e = i_event) || bool_decide (e = k_event)
  end.

(** The condition guarding the body of both detection loops. *)
Definition candidate (event : option Event) (s : t)
    (i_event k_event : Event) : bool :=
  bool_decide (i_event ≠ k_event)
  && involves event i_event k_event
  && bool_decide (dpid i_event = dpid k_event)
  && negb (is_ordered s i_event k_event).

Section Checker.

(** [CommutativityChecker]: the oracle of hb_comute_check, a function of
    the two events and their operations. *)
Variable check_commutativity_ww
  : Event → Operation → Event → Operation → bool.
Variable check_commutativity_rw
  : Event → Operation → Event → Operation → bool.

(** The statements under the guard that record a race. *)
Definition record_race (commutes : bool) (r : Race) (s : t) : t :=
  let s :=
    if commutes then set_races_commute (races_commute s ++ [r]) s
    else
      let s := set_races_harmful (races_harmful s ++ [r]) s in
      let s := set_racing_events_harmful
                 (add (i_event r) (racing_events_harmful s)) s in
      set_racing_events_harmful
        (add (k_event r) (racing_events_harmful s)) s in
  let s := set_racing_events (add (i_event r) (racing_events s)) s in
  set_racing_events (add (k_event r) (racing_events s)) s.

(** The body of the loop of [detect_ww_races]. *)
Definition ww_body (event : option Event)
    (p : (Event * Operation) * (Event * Operation)) (s : t) : t :=
  let '((i_event, i_op), (k_event, k_op)) := p in
  if candidate event s i_event k_event then
    record_race (check_commutativity_ww i_event i_op k_event k_op)
      (mkRace "w/w" i_event i_op k_event k_op) s
  else s.

(** [detect_ww_races]; [verbose] only prints. *)
Definition detect_ww_races (event : option Event) (s : t) : t :=
  foldl (λ s p, ww_body event p s) s (combinations (write_operations s)).

(** The body of the inner loop of [detect_rw_races]. *)
Definition rw_body (event : option Event)
    (p : (Event * Operation) * (Event * Operation)) (s : t) : t :=
  let '((i_event, i_op), (k_event, k_op)) := p in
  if candidate event s i_event k_event then
    if filter_rw s && negb (has_common_ancestor s i_event k_event) then
      set_total_filtered (total_filtered s + 1) s
    else
      record_race (check_commutativity_rw i_event i_op k_event k_op)
        (mkRace "r/w" i_event i_op k_event k_op) s
  else s.

(** The pairs the two nested loops of [detect_rw_races] go through. *)
Definition rw_pairs (s : t)
  : list ((Event * Operation) * (Event * Operation)) :=
  r ← read_operations s; pair r <$> write_operations s.

(** [detect_rw_races] *)
Definition detect_rw_races (event : option Event) (s : t) : t :=
  foldl (λ s p, rw_body event p s) s (rw_pairs s).

(** [detect_races] *)
Definition detect_races (event : option Event) (s : t) : outcome :=
  match read_ops s with
  | AssertionError s => AssertionError s
  | Done s =>
      let s := set_races_harmful [] s in
      let s := set_races_commute [] s in
      let s := set_racing_events [] s in
      let s := set_racing_events_harmful [] s in
      let s := set_total_filtered 0 s in
      let s := detect_ww_races event s in
      let s := detect_rw_races event s in
      let s := set_total_operations
                 (Z.of_nat (length (write_operations s))
                  + Z.of_nat (length (read_operations s))) s in
      let s := set_total_harmful (Z.of_nat (length (races_harmful s))) s in
      let s := set_total_commute (Z.of_nat (length (races_commute s))) s in
      let s := set_total_races (total_harmful s + total_commute s) s in
      Done s
  end.

(** *** What a run records, read off the loops

    The lists below restate the two loops as comprehensions; the properties
    relate them to the loops themselves. *)

Abbreviation pair_of_ops := ((Event * Operation) * (Event * Operation))%type.

(** A pair passes the guard of the loop body. *)
Definition passes (event : option Event) (s : t) (p : pair_of_ops) : bool :=
  candidate event s p.1.1 p.2.1.

(** The r/w pair is rejected by the common-ancestor filter. *)
Definition rejected (s : t) (p : pair_of_ops) : bool :=
  filter_rw s && negb (has_common_ancestor s p.1.1 p.2.1).

Definition ww_survivors (event : option Event) (s : t) : list pair_of_ops :=
  filter (λ p, passes event s p = true) (combinations (write_operations s)).

Definition rw_survivors (event : option Event) (s : t) : list pair_of_ops :=
  filter (λ p, passes event s p && negb (rejected s p) = true) (rw_pairs s).

Definition rw_filtered (event : option Event) (s : t) : list pair_of_ops :=
  filter (λ p, passes event s p && rejected s p = true) (rw_pairs s).

Definition race_of (rtype : string) (p : pair_of_ops) : Race :=
  mkRace rtype p.1.1 p.1.2 p.2.1 p.2.2.

Definition commutes_ww (p : pair_of_ops) : bool :=
  check_commutativity_ww p.1.1 p.1.2 p.2.1 p.2.2.

Definition commutes_rw (p : pair_of_ops) : bool :=
  check_commutativity_rw p.1.1 p.1.2 p.2.1 p.2.2.

(** The surviving pairs in the order the run meets them, each with the
    oracle's verdict and the race it is recorded as. *)
Definition verdicts (event : option Event) (s : t) : list (bool * Race) :=
  ((λ p, (commutes_ww p, race_of "w/w" p)) <$> ww_survivors event s)
  ++ ((λ p, (commutes_rw p, race_of "r/w" p)) <$> rw_survivors event s).

(** The detector a successful run leaves behind, given the operations
    [read_ops] collected. *)
Definition run_result (event : option Event) (G : HappensBeforeGraph)
    (f : bool) (r w : list (Event * Operation)) : t :=
  let s := mkDetector G r w [] [] [] [] 0 0 0 0 0 f in
  let V := verdicts event s in
  let harmful := filter (λ x, x.1 = false) V in
  let commute := filter (λ x, x.1 = true) V in
  mkDetector G r w (harmful.*2) (commute.*2)
    (foldl (λ X e, add e X) [] (x ← V; [i_event x.2; k_event x.2]))
    (foldl (λ X e, add e X) [] (x ← harmful; [i_event x.2; k_event x.2]))
    (Z.of_nat (length w) + Z.of_nat (length r))
    (Z.of_nat (length harmful))
    (Z.of_nat (length commute))
    (Z.of_nat (length (rw_filtered event s)))
    (Z.of_nat (length harmful) + Z.of_nat (length commute))
    f.

End Checker.

(** What [read_ops] does to a detector: it appends to the two lists, and
    stops at a failing assertion. *)
Definition ended (ok : bool) (s : t) : outcome :=
  if ok then Done s else AssertionError s.

Definition extend (ok : bool) (r w : list (Event * Operation)) (s : t)
  : outcome :=
  ended ok
    (set_write_operations (write_operations s ++ w)
       (set_read_operations (read_operations s ++ r) s)).

(** [(i, k)] is an operation of kind [ty] of an event of the graph. *)
Definition op_of (G : HappensBeforeGraph) (ty : string)
    (x : Event * Operation) : Prop :=
  x.1 ∈ events G
  ∧ type x.2 = ty
  ∧ ∃ ops, operations x.1 = Some ops ∧ x.2 ∈ ops.

(** The assignments of [detect_races] before and after the two loops. *)
Definition reset (s : t) : t :=
  let s := set_races_harmful [] s in
  let s := set_races_commute [] s in
  let s := set_racing_events [] s in
  let s := set_racing_events_harmful [] s in
  set_total_filtered 0 s.

Definition set_totals (s : t) : t :=
  let s := set_total_operations
             (Z.of_nat (length (write_operations s))
              + Z.of_nat (length (read_operations s))) s in
  let s := set_total_harmful (Z.of_nat (length (races_harmful s))) s in
  let s := set_total_commute (Z.of_nat (length (races_commute s))) s in
  set_total_races (total_harmful s + total_commute s) s.

(** Recording a list of verdicts one after the other. *)
Definition record_all (l : list (bool * Race)) (s : t) : t :=
  foldl (λ s x, record_race x.1 x.2 s) s l.

Definition add_all (l : list Event) (X : EventSet) : EventSet :=
  foldl (λ X e, add e X) X l.

Definition events_of (l : list (bool * Race)) : list Event :=
  x ← l; [i_event x.2; k_event x.2].

Definition commuting (l : list (bool * Race)) : list (bool * Race) :=
  filter (λ x, x.1 = true) l.

Definition harmful (l : list (bool * Race)) : list (bool * Race) :=
  filter (λ x, x.1 = false) l.

(** The invariant tying the harmful events to the harmful races. *)
Definition harmful_events_consistent (s : t) : Prop :=
  (∀ e, e ∈ racing_events_harmful s → e ∈ racing_events s)
  ∧ (∀ e, e ∈ racing_events_harmful s
          ↔ ∃ r, r ∈ races_harmful s ∧ (e = i_event r ∨ e = k_event r)).

End RaceDetector.

(** *** A sample graph

    One switch (dpid 7) with three writes and a read, a second switch
    (dpid 8) with one write, and a host send (eid 0) from which events 1, 3
    and 5 descend. *)

Module DetectorSample.
Import RaceDetector.

Definition write (n : Z) (fm : string) : Operation :=
  mkOperation "TraceSwitchFlowTableWrite" n (Some "table") (Some fm).

Definition read (n : Z) (fm : string) : Operation :=
  mkOperation "TraceSwitchFlowTableRead" n (Some "table") (Some fm).

Definition host_send : Event := mkEvent 0 0 None (Some "pkt") None.
Definition e1 : Event := mkEvent 1 7 (Some [write 11 "fm1"]) None None.
Definition e2 : Event := mkEvent 2 7 (Some [write 12 "fm2"]) None None.
Definition e3 : Event :=
  mkEvent 3 7 (Some [read 13 "fm1"]) (Some "pkt") (Some 1).
Definition e4 : Event := mkEvent 4 8 (Some [write 14 "fm1"]) None None.
Definition e5 : Event := mkEvent 5 7 (Some [write 15 "fm2"]) None None.

Definition hb_graph : HappensBeforeGraph :=
  mkGraph [host_send; e1; e2; e3; e4; e5] [(0, 1); (0, 3); (1, 5)].

(** A stand-in for the oracle: two writes commute when they install the same
    flow mod; a read never commutes with a write. *)
Definition same_flow_mod (i : Event) (io : Operation) (k : Event)
    (ko : Operation) : bool :=
  bool_decide (flow_mod io = flow_mod ko).

Definition never (i : Event) (io : Operation) (k : Event) (ko : Operation)
  : bool := false.

Definition run (event : option Event) (filter_rw : bool) : outcome :=
  detect_races same_flow_mod never event (init hb_graph filter_rw).

(** The detector after a run over the whole graph, with the filter on. *)
Definition after_run : t := Eval vm_compute in state_of (run None true).

(** The same after a run for event 4 only. *)
Definition after_run_for_e4 : t :=
  Eval vm_compute in state_of (run (Some e4) true).

(** A graph whose read has lost its packet: [read_ops] fails on it. *)
Definition broken_graph : HappensBeforeGraph :=
  mkGraph [e1; mkEvent 3 7 (Some [read 13 "fm1"]) None (Some 1); e2] [].

Definition after_failed_run : t :=
  Eval vm_compute in
    state_of (detect_races same_flow_mod never None
                (set_graph broken_graph after_run)).

End DetectorSample.

(** ** hb_sts_events.py and hb_logger.py *)

Module Logger.

Definition Tag := Z.

(** A packet or an OpenFlow message of the simulator: a Python object, with
    its identity, the base64 form of its bytes when the event was raised and,
    for a message, its [header_type]. *)
Record Packet := mkPacket {
  packet_id : Z;
  packet_b64 : string
}.

Record Message := mkMessage {
  msg_id : Z;
  msg_b64 : string;
  header_type : Z
}.

(** [base64_encode] *)
Definition base64_encode (m : Message) : string := msg_b64 m.

(** *** The trace events of hb_sts_events.py that the logger handles *)

Inductive TraceEvent :=
| TraceSwitchPacketHandleBegin (dpid : Z) (packet : Packet) (in_port : Z)
| TraceSwitchPacketHandleEnd (dpid : Z)
| TraceSwitchMessageHandleBegin (dpid : Z) (controller_id : string)
    (msg : Message) (msg_type : Z) (flow_mod : option string)
| TraceSwitchMessageHandleEnd (dpid : Z)
| TraceSwitchMessageSend (dpid : Z) (cid : Z) (controller_id : string)
    (msg : Message)
| TraceSwitchPacketSend (dpid : Z) (packet : Packet) (out_port : Z)
| TraceSwitchFlowTableRead (dpid : Z) (packet : Packet) (in_port : Z)
    (flow_table flow_mod : string) (touched_flow_bytes : option Z)
    (touched_flow_now : option string)
| TraceSwitchFlowTableWrite (dpid : Z) (flow_table flow_mod : string)
| TraceSwitchFlowTableEntryExpiry (dpid : Z) (flow_table removed : string)
| TraceSwitchBufferPut (dpid : Z) (packet : Packet) (in_port : Z)
    (buffer_id : Z)
| TraceSwitchBufferGet (dpid : Z) (packet : Packet) (in_port : Z)
    (buffer_id : Z)
| TraceSwitchPacketUpdateBegin (dpid : Z) (packet : Packet)
| TraceSwitchPacketUpdateEnd (dpid : Z) (packet : Packet)
| TraceHostPacketHandleBegin (hid : Z) (packet : Packet) (in_port : Z)
| TraceHostPacketHandleEnd (hid : Z)
| TraceHostPacketSend (hid : Z) (packet : Packet) (out_port : Z)
| TraceAsyncSwitchFlowExpirationBegin (dpid : Z)
| TraceAsyncSwitchFlowExpirationEnd (dpid : Z)
| TraceSwitchMessageRx (dpid : Z) (controller_id : string) (msg : Message)
    (b64msg : string)
| TraceSwitchMessageTx (dpid : Z) (controller_id : string) (msg : Message)
    (b64msg : string).

#[global] Instance Packet_eq_dec : EqDecision Packet.
Proof. solve_decision. Defined.

#[global] Instance Message_eq_dec : EqDecision Message.
Proof. solve_decision. Defined.

#[global] Instance TraceEvent_eq_dec : EqDecision TraceEvent.
Proof. solve_decision. Defined.

Definition is_BufferPut (e : TraceEvent) : bool :=
  match e with TraceSwitchBufferPut _ _ _ _ => true | _ => false end.

Definition is_BufferGet (e : TraceEvent) : bool :=
  match e with TraceSwitchBufferGet _ _ _ _ => true | _ => false end.

(** *** The happens-before events the logger builds *)

(** Modelled from the spec: the classes of hb_events.py are not among the
    sources.  The attributes are those of the table of section 3 and of the
    constructor calls in the logger; a switch handle of either class carries
    [mid_out], [pid_out] and [operations], to which the logger appends
    whichever class is started. *)
Inductive HandleClass := HbPacketHandle_class | HbMessageHandle_class.

#[global] Instance HandleClass_eq_dec : EqDecision HandleClass.
Proof. solve_decision. Defined.

(** Modelled from the spec: [HbPacketHandle] and [HbMessageHandle]
    (hb_events.py), with the attributes the logger sets and appends to. *)
Record SwitchHandle := mkSwitchHandle {
  class : HandleClass;
  dpid : Z;
  pid_in : option Tag;
  mid_in : option Tag;
  msg_type : option Z;
  controller_id : option string;
  packet : option Packet;
  in_port : option Z;
  msg : option Message;
  msg_flowmod : option string;
  mid_out : list Tag;
  pid_out : list Tag;
  operations : list TraceEvent
}.

(** [HbPacketHandle(pid_in, dpid=, packet=, in_port=)] *)
Definition HbPacketHandle (pid_in : Tag) (dpid : Z) (packet : Packet)
    (in_port : Z) : SwitchHandle :=
  mkSwitchHandle HbPacketHandle_class dpid (Some pid_in) None None None
    (Some packet) (Some in_port) None None [] [] [].

(** [HbMessageHandle(mid_in, msg_type, dpid=, controller_id=, msg=,
    msg_flowmod=)] *)
Definition HbMessageHandle (mid_in : Tag) (msg_type : Z) (dpid : Z)
    (controller_id : string) (msg : Message) (msg_flowmod : option string)
  : SwitchHandle :=
  mkSwitchHandle HbMessageHandle_class dpid None (Some mid_in) (Some msg_type)
    (Some controller_id) None None (Some msg) msg_flowmod [] [] [].

(** Modelled from the spec: [HbHostHandle] (hb_events.py). *)
Record HostHandle := mkHostHandle {
  hid : Z;
  host_pid_in : Tag;
  host_packet : Packet;
  host_in_port : Z;
  host_pid_out : list Tag
}.

(** [HbHostHandle(pid_in, hid=, packet=, in_port=)] *)
Definition HbHostHandle (pid_in : Tag) (hid : Z) (packet : Packet)
    (in_port : Z) : HostHandle :=
  mkHostHandle hid pid_in packet in_port [].

(** Modelled from the spec: what is written to the trace, the handles and
    the successor events of hb_events.py with the arguments the logger
    constructs them from. *)
Inductive HbEvent :=
| OfSwitchHandle (h : SwitchHandle)
| OfHostHandle (h : HostHandle)
| HbPacketSend (pid_in pid_out : Tag) (dpid : Z) (packet : Packet)
    (out_port : Z)
| HbMessageSend (mid_in mid_out : Tag) (msg_type : Z) (dpid : Z)
    (controller_id : string) (msg : Message)
| HbHostSend (pid_in pid_out : Tag) (hid : Z) (packet : Packet)
    (out_port : Z)
| HbControllerHandle (mid_in mid_out : Tag)
| HbControllerSend (mid_in mid_out : Tag).

#[global] Instance SwitchHandle_eq_dec : EqDecision SwitchHandle.
Proof. solve_decision. Defined.

#[global] Instance HostHandle_eq_dec : EqDecision HostHandle.
Proof. solve_decision. Defined.

#[global] Instance HbEvent_eq_dec : EqDecision HbEvent.
Proof. solve_decision. Defined.

(** In-place updates of a started handle. *)
Definition append_operation (op : TraceEvent) (h : SwitchHandle)
  : SwitchHandle :=
  mkSwitchHandle (class h) (dpid h) (pid_in h) (mid_in h) (msg_type h)
    (controller_id h) (packet h) (in_port h) (msg h) (msg_flowmod h)
    (mid_out h) (pid_out h) (operations h ++ [op]).

Definition append_mid_out (m : Tag) (h : SwitchHandle) : SwitchHandle :=
  mkSwitchHandle (class h) (dpid h) (pid_in h) (mid_in h) (msg_type h)
    (controller_id h) (packet h) (in_port h) (msg h) (msg_flowmod h)
    (mid_out h ++ [m]) (pid_out h) (operations h).

Definition append_pid_out (p : Tag) (h : SwitchHandle) : SwitchHandle :=
  mkSwitchHandle (class h) (dpid h) (pid_in h) (mid_in h) (msg_type h)
    (controller_id h) (packet h) (in_port h) (msg h) (msg_flowmod h)
    (mid_out h) (pid_out h ++ [p]) (operations h).

Definition set_pid_in (p : Tag) (h : SwitchHandle) : SwitchHandle :=
  mkSwitchHandle (class h) (dpid h) (Some p) (mid_in h) (msg_type h)
    (controller_id h) (packet h) (in_port h) (msg h) (msg_flowmod h)
    (mid_out h) (pid_out h) (operations h).

Definition host_append_pid_out (p : Tag) (h : HostHandle) : HostHandle :=
  mkHostHandle (hid h) (host_pid_in h) (host_packet h) (host_in_port h)
    (host_pid_out h ++ [p]).

(** *** The object registry *)

(** Modelled from the spec: hb_tags.py is not among the sources.  Section
    4.1: tags are allocated from a counter and never reused; objects are
    known by identity only. *)
Record ObjectRegistry := mkRegistry {
  next_tag : Tag;
  tags : gmap Z Tag
}.

Definition new_registry : ObjectRegistry := mkRegistry 1 ∅.

(** Modelled from the spec: [generate_unused_tag()], a tag bound to no
    object. *)
Definition generate_unused_tag (r : ObjectRegistry) : Tag * ObjectRegistry :=
  (next_tag r, mkRegistry (next_tag r + 1) (tags r)).

(** Modelled from the spec: [new_tag(o)], a fresh tag for [o], detaching any
    prior tag. *)
Definition new_tag (o : Z) (r : ObjectRegistry) : Tag * ObjectRegistry :=
  (next_tag r, mkRegistry (next_tag r + 1) (<[o := next_tag r]> (tags r))).

(** Modelled from the spec: [get_tag(o)], the tag of [o], a fresh one if it
    has none. *)
Definition get_tag (o : Z) (r : ObjectRegistry) : Tag * ObjectRegistry :=
  match tags r !! o with
  | Some tag => (tag, r)
  | None => new_tag o r
  end.

(** Modelled from the spec: [replace_obj(t, o)] rebinds the tag [t] to
    [o]. *)
Definition replace_obj (tag : Tag) (o : Z) (r : ObjectRegistry)
  : ObjectRegistry :=
  mkRegistry (next_tag r) (<[o := tag]> (filter (λ kv, kv.2 ≠ tag) (tags r))).

(** Modelled from the spec: [remove_obj(o)] detaches any tag bound to
    [o]. *)
Definition remove_obj (o : Z) (r : ObjectRegistry) : ObjectRegistry :=
  mkRegistry (next_tag r) (delete o (tags r)).

(** Every tag handed out so far is below the counter. *)
Definition registry_ok (r : ObjectRegistry) : Prop :=
  ∀ o tag, tags r !! o = Some tag → tag < next_tag r.

(** *** The logger's state *)

(** What [self.log.info] and the printed tracebacks record. *)
Inductive Exn := AssertionError | TypeError | KeyError | AttributeError.

Inductive LogRecord :=
| Info (text : string)
| InfoEvent (e : HbEvent)
| Traceback (e : Exn).

(** A [defaultdict(list)] keyed by dpid, as the list of its items.  The
    logger walks its [keys()], whose order Python leaves to the
    implementation (in CPython 2 it follows the hashes of the keys, not the
    insertions); the order of the list stands for it, and [dd_set] putting a
    new key last picks one such order.  What is proved of the walk below is
    stated of the items of the list, whichever comes first.  A key read but
    never appended to holds the empty list and is left out. *)
Definition DefaultDict := list (Z * list (Tag * string)).

Fixpoint dd_get (k : Z) (d : DefaultDict) : list (Tag * string) :=
  match d with
  | [] => []
  | (k', l) :: d' => if decide (k = k') then l else dd_get k d'
  end.

Fixpoint dd_set (k : Z) (l : list (Tag * string)) (d : DefaultDict)
  : DefaultDict :=
  match d with
  | [] => [(k, l)]
  | (k', l') :: d' =>
      if decide (k = k') then (k, l) :: d' else (k', l') :: dd_set k l d'
  end.

Definition dd_append (k : Z) (x : Tag * string) (d : DefaultDict)
  : DefaultDict :=
  dd_set k (dd_get k d ++ [x]) d.

(** [list.remove(x)]: drops the first element equal to [x]. *)
Fixpoint list_remove {A} `{EqDecision A} (x : A) (l : list A) : list A :=
  match l with
  | [] => []
  | y :: l' => if decide (x = y) then l' else y :: list_remove x l'
  end.

(** A line of the controller about a message it sent:
    [(in_swid, in_b64msg, out_swid, out_b64msg)]. *)
Definition MsgOutLine := (Z * string * Z * string)%type.

(** The attributes of a [HappensBeforeLogger] between [open] and [close];
    [output] is the trace written so far, one event per line. *)
Record t := mkLogger {
  output : list HbEvent;
  log : list LogRecord;
  pids : ObjectRegistry;
  mids : ObjectRegistry;
  started_switch_event : gmap Z SwitchHandle;
  started_host_event : gmap Z HostHandle;
  new_switch_events : gmap Z (list HbEvent);
  new_host_events : gmap Z (list HbEvent);
  pending_packet_update : gmap Z Tag;
  unmatched_HbMessageSend : DefaultDict;
  unmatched_HbMessageHandle : DefaultDict;
  controller_msgin_to_mid_out : gmap (Z * string) Tag;
  unmatched_lines_controller_msgout : list MsgOutLine;
  swid_to_dpid : gmap Z Z;
  dpid_to_swid : gmap Z Z
}.

(** [__init__] followed by [open]. *)
Definition init : t :=
  mkLogger [] [] new_registry new_registry ∅ ∅ ∅ ∅ ∅ [] [] ∅ [] ∅ ∅.

Definition set_output v s :=
  mkLogger v (log s) (pids s) (mids s) (started_switch_event s)
    (started_host_event s) (new_switch_events s) (new_host_events s)
    (pending_packet_update s) (unmatched_HbMessageSend s)
    (unmatched_HbMessageHandle s) (controller_msgin_to_mid_out s)
    (unmatched_lines_controller_msgout s) (swid_to_dpid s) (dpid_to_swid s).

Definition set_log v s :=
  mkLogger (output s) v (pids s) (mids s) (started_switch_event s)
    (started_host_event s) (new_switch_events s) (new_host_events s)
    (pending_packet_update s) (unmatched_HbMessageSend s)
    (unmatched_HbMessageHandle s) (controller_msgin_to_mid_out s)
    (unmatched_lines_controller_msgout s) (swid_to_dpid s) (dpid_to_swid s).

Definition set_pids v s :=
  mkLogger (output s) (log s) v (mids s) (started_switch_event s)
    (started_host_event s) (new_switch_events s) (new_host_events s)
    (pending_packet_update s) (unmatched_HbMessageSend s)
    (unmatched_HbMessageHandle s) (controller_msgin_to_mid_out s)
    (unmatched_lines_controller_msgout s) (swid_to_dpid s) (dpid_to_swid s).

Definition set_mids v s :=
  mkLogger (output s) (log s) (pids s) v (started_switch_event s)
    (started_host_event s) (new_switch_events s) (new_host_events s)
    (pending_packet_update s) (unmatched_HbMessageSend s)
    (unmatched_HbMessageHandle s) (controller_msgin_to_mid_out s)
    (unmatched_lines_controller_msgout s) (swid_to_dpid s) (dpid_to_swid s).

Definition set_started_switch_event v s :=
  mkLogger (output s) (log s) (pids s) (mids s) v
    (started_host_event s) (new_switch_events s) (new_host_events s)
    (pending_packet_update s) (unmatched_HbMessageSend s)
    (unmatched_HbMessageHandle s) (controller_msgin_to_mid_out s)
    (unmatched_lines_controller_msgout s) (swid_to_dpid s) (dpid_to_swid s).

Definition set_started_host_event v s :=
  mkLogger (output s) (log s) (pids s) (mids s) (started_switch_event s)
    v (new_switch_events s) (new_host_events s)
    (pending_packet_update s) (unmatched_HbMessageSend s)
    (unmatched_HbMessageHandle s) (controller_msgin_to_mid_out s)
    (unmatched_lines_controller_msgout s) (swid_to_dpid s) (dpid_to_swid s).

Definition set_new_switch_events v s :=
  mkLogger (output s) (log s) (pids s) (mids s) (started_switch_event s)
    (started_host_event s) v (new_host_events s)
    (pending_packet_update s) (unmatched_HbMessageSend s)
    (unmatched_HbMessageHandle s) (controller_msgin_to_mid_out s)
    (unmatched_lines_controller_msgout s) (swid_to_dpid s) (dpid_to_swid s).

Definition set_new_host_events v s :=
  mkLogger (output s) (log s) (pids s) (mids s) (started_switch_event s)
    (started_host_event s) (new_switch_events s) v
    (pending_packet_update s) (unmatched_HbMessageSend s)
    (unmatched_HbMessageHandle s) (controller_msgin_to_mid_out s)
    (unmatched_lines_controller_msgout s) (swid_to_dpid s) (dpid_to_swid s).

Definition set_pending_packet_update v s :=
  mkLogger (output s) (log s) (pids s) (mids s) (started_switch_event s)
    (started_host_event s) (new_switch_events s) (new_host_events s)
    v (unmatched_HbMessageSend s)
    (unmatched_HbMessageHandle s) (controller_msgin_to_mid_out s)
    (unmatched_lines_controller_msgout s) (swid_to_dpid s) (dpid_to_swid s).

Definition set_unmatched_HbMessageSend v s :=
  mkLogger (output s) (log s) (pids s) (mids s) (started_switch_event s)
    (started_host_event s) (new_switch_events s) (new_host_events s)
    (pending_packet_update s) v
    (unmatched_HbMessageHandle s) (controller_msgin_to_mid_out s)
    (unmatched_lines_controller_msgout s) (swid_to_dpid s) (dpid_to_swid s).

Definition set_unmatched_HbMessageHandle v s :=
  mkLogger (output s) (log s) (pids s) (mids s) (started_switch_event s)
    (started_host_event s) (new_switch_events s) (new_host_events s)
    (pending_packet_update s) (unmatched_HbMessageSend s)
    v (controller_msgin_to_mid_out s)
    (unmatched_lines_controller_msgout s) (swid_to_dpid s) (dpid_to_swid s).

Definition set_controller_msgin_to_mid_out v s :=
  mkLogger (output s) (log s) (pids s) (mids s) (started_switch_event s)
    (started_host_event s) (new_switch_events s) (new_host_events s)
    (pending_packet_update s) (unmatched_HbMessageSend s)
    (unmatched_HbMessageHandle s) v
    (unmatched_lines_controller_msgout s) (swid_to_dpid s) (dpid_to_swid s).

Definition set_unmatched_lines_controller_msgout v s :=
  mkLogger (output s) (log s) (pids s) (mids s) (started_switch_event s)
    (started_host_event s) (new_switch_events s) (new_host_events s)
    (pending_packet_update s) (unmatched_HbMessageSend s)
    (unmatched_HbMessageHandle s) (controller_msgin_to_mid_out s)
    v (swid_to_dpid s) (dpid_to_swid s).

Definition set_swid_to_dpid v s :=
  mkLogger (output s) (log s) (pids s) (mids s) (started_switch_event s)
    (started_host_event s) (new_switch_events s) (new_host_events s)
    (pending_packet_update s) (unmatched_HbMessageSend s)
    (unmatched_HbMessageHandle s) (controller_msgin_to_mid_out s)
    (unmatched_lines_controller_msgout s) v (dpid_to_swid s).

Definition set_dpid_to_swid v s :=
  mkLogger (output s) (log s) (pids s) (mids s) (started_switch_event s)
    (started_host_event s) (new_switch_events s) (new_host_events s)
    (pending_packet_update s) (unmatched_HbMessageSend s)
    (unmatched_HbMessageHandle s) (controller_msgin_to_mid_out s)
    (unmatched_lines_controller_msgout s) (swid_to_dpid s) v.

(** *** Methods: state passing with exceptions *)

Inductive result (A : Type) :=
| Ok (a : A) (s : t)
| Raise (e : Exn) (s : t).
Arguments Ok {A} a s.
Arguments Raise {A} e s.

Definition state_of {A} (r : result A) : t :=
  match r with Ok _ s | Raise _ s => s end.

Definition M (A : Type) : Type := t → result A.

Definition ret {A} (a : A) : M A := λ s, Ok a s.

Definition bind {A B} (m : M A) (k : A → M B) : M B :=
  λ s, match m s with
       | Ok a s' => k a s'
       | Raise e s' => Raise e s'
       end.

Definition raise {A} (e : Exn) : M A := λ s, Raise e s.

Definition gets {A} (f : t → A) : M A := λ s, Ok (f s) s.

Definition modify (f : t → t) : M unit := λ s, Ok tt (f s).

Notation "x ← m ; k" := (bind m (λ x, k))
  (at level 20, m at level 100, k at level 200, only parsing).
Notation "m ;; k" := (bind m (λ _, k))
  (at level 100, k at level 200, right associativity, only parsing).

(** [assert b] *)
Definition py_assert (b : bool) : M unit :=
  if b then ret tt else raise AssertionError.

(** [d[k]] on a plain dictionary. *)
Definition subscript {V} (d : gmap Z V) (k : Z) : M V :=
  match d !! k with
  | Some v => ret v
  | None => raise KeyError
  end.

(** [for x in l: body(x)] *)
Fixpoint for_each {A} (l : list A) (body : A → M unit) : M unit :=
  match l with
  | [] => ret tt
  | x :: l' => body x ;; for_each l' body
  end.

(** A call on one of the two registries. *)
Definition on_pids {A} (f : ObjectRegistry → A * ObjectRegistry) : M A :=
  λ s, let '(a, r) := f (pids s) in Ok a (set_pids r s).

Definition on_mids {A} (f : ObjectRegistry → A * ObjectRegistry) : M A :=
  λ s, let '(a, r) := f (mids s) in Ok a (set_mids r s).

Definition info (text : string) : M unit :=
  modify (λ s, set_log (log s ++ [Info text]) s).

(** [write]: the line goes to the log and to the trace file. *)
Definition write (e : HbEvent) : M unit :=
  modify (λ s, set_log (log s ++ [InfoEvent e]) s) ;;
  modify (λ s, set_output (output s ++ [e]) s).

(** [write_event_to_trace] *)
Definition write_event_to_trace (e : HbEvent) : M unit := write e.

(** **** Switch helper functions *)

(** [start_switch_event] *)
Definition start_switch_event (dpid_ : Z) (event : SwitchHandle) : M unit :=
  queued ← gets (λ s, default [] (new_switch_events s !! dpid_)) ;
  for_each queued write_event_to_trace ;;
  modify (λ s, set_new_switch_events (delete dpid_ (new_switch_events s)) s) ;;
  started ← gets started_switch_event ;
  py_assert (bool_decide (started !! dpid event = None)) ;;
  modify (λ s, set_started_switch_event
                 (<[dpid event := event]> (started_switch_event s)) s).

(** [finish_switch_event] *)
Definition finish_switch_event (dpid_ : Z) : M unit :=
  started ← gets started_switch_event ;
  py_assert (bool_decide (is_Some (started !! dpid_))) ;;
  event ← subscript started dpid_ ;
  write_event_to_trace (OfSwitchHandle event) ;;
  modify (λ s, set_started_switch_event
                 (delete dpid_ (started_switch_event s)) s) ;;
  queued ← gets (λ s, default [] (new_switch_events s !! dpid_)) ;
  for_each queued write_event_to_trace ;;
  modify (λ s, set_new_switch_events (delete dpid_ (new_switch_events s)) s).

(** [is_switch_event_started] *)
Definition is_switch_event_started (dpid_ : Z) : M bool :=
  gets (λ s, bool_decide (is_Some (started_switch_event s !! dpid_))).

(** An in-place update of [self.started_switch_event[dpid]]. *)
Definition update_started (dpid_ : Z) (f : SwitchHandle → SwitchHandle)
  : M unit :=
  started ← gets started_switch_event ;
  event ← subscript started dpid_ ;
  modify (set_started_switch_event (<[dpid_ := f event]> started)).

(** The [dpid] attribute of a trace event; the host events have none. *)
Definition trace_dpid (event : TraceEvent) : option Z :=
  match event with
  | TraceSwitchPacketHandleBegin d _ _ | TraceSwitchPacketHandleEnd d
  | TraceSwitchMessageHandleBegin d _ _ _ _ | TraceSwitchMessageHandleEnd d
  | TraceSwitchMessageSend d _ _ _ | TraceSwitchPacketSend d _ _
  | TraceSwitchFlowTableRead d _ _ _ _ _ _ | TraceSwitchFlowTableWrite d _ _
  | TraceSwitchFlowTableEntryExpiry d _ _ | TraceSwitchBufferPut d _ _ _
  | TraceSwitchBufferGet d _ _ _ | TraceSwitchPacketUpdateBegin d _
  | TraceSwitchPacketUpdateEnd d _ | TraceAsyncSwitchFlowExpirationBegin d
  | TraceAsyncSwitchFlowExpirationEnd d | TraceSwitchMessageRx d _ _ _
  | TraceSwitchMessageTx d _ _ _ => Some d
  | TraceHostPacketHandleBegin _ _ _ | TraceHostPacketHandleEnd _
  | TraceHostPacketSend _ _ _ => None
  end.

(** [event.dpid] *)
Definition dpid_of (event : TraceEvent) : M Z :=
  match trace_dpid event with
  | Some d => ret d
  | None => raise AttributeError
  end.

(** [add_operation_to_switch_event] *)
Definition add_operation_to_switch_event (event : TraceEvent) : M unit :=
  d ← dpid_of event ;
  started ← is_switch_event_started d ;
  if started then update_started d (append_operation event)
  else
    info "Ignoring switch operation as there is no associated begin event.".

(** [add_successor_to_switch_event]; the successor is built with
    [dpid=event.dpid] by both callers, and that dpid is passed along. *)
Definition add_successor_to_switch_event (dpid_ : Z) (event : HbEvent)
    (mid_in_ pid_in_ : option Tag) : M unit :=
  started ← is_switch_event_started dpid_ ;
  if started then
    match mid_in_ with
    | Some m => update_started dpid_ (append_mid_out m)
    | None => ret tt
    end ;;
    match pid_in_ with
    | Some p => update_started dpid_ (append_pid_out p)
    | None => ret tt
    end ;;
    modify (λ s, set_new_switch_events
                   (<[dpid_ := default [] (new_switch_events s !! dpid_)
                               ++ [event]]> (new_switch_events s)) s)
  else
    info "Writing switch event even though there was no associated begin event." ;;
    write_event_to_trace event.

(** **** Host helper functions *)

(** [start_host_event] *)
Definition start_host_event (hid_ : Z) (event : HostHandle) : M unit :=
  queued ← gets (λ s, default [] (new_host_events s !! hid_)) ;
  for_each queued write_event_to_trace ;;
  modify (λ s, set_new_host_events (delete hid_ (new_host_events s)) s) ;;
  started ← gets started_host_event ;
  py_assert (bool_decide (started !! hid event = None)) ;;
  modify (λ s, set_started_host_event
                 (<[hid event := event]> (started_host_event s)) s).

(** [finish_host_event] *)
Definition finish_host_event (hid_ : Z) : M unit :=
  started ← gets started_host_event ;
  py_assert (bool_decide (is_Some (started !! hid_))) ;;
  event ← subscript started hid_ ;
  write_event_to_trace (OfHostHandle event) ;;
  modify (λ s, set_started_host_event
                 (delete hid_ (started_host_event s)) s) ;;
  queued ← gets (λ s, default [] (new_host_events s !! hid_)) ;
  for_each queued write_event_to_trace ;;
  modify (λ s, set_new_host_events (delete hid_ (new_host_events s)) s).

(** [is_host_event_started] *)
Definition is_host_event_started (hid_ : Z) : M bool :=
  gets (λ s, bool_decide (is_Some (started_host_event s !! hid_))).

(** [add_successor_to_host_event] *)
Definition add_successor_to_host_event (hid_ : Z) (event : HbEvent)
    (pid_in_ : option Tag) : M unit :=
  started ← is_host_event_started hid_ ;
  if started then
    match pid_in_ with
    | Some p =>
        hosts ← gets started_host_event ;
        h ← subscript hosts hid_ ;
        modify (set_started_host_event
                  (<[hid_ := host_append_pid_out p h]> hosts))
    | None => ret tt
    end ;;
    modify (λ s, set_new_host_events
                   (<[hid_ := default [] (new_host_events s !! hid_)
                              ++ [event]]> (new_host_events s)) s)
  else
    info "Writing host event even though there was no associated begin event." ;;
    write_event_to_trace event.

(** **** Controller instrumentation *)

(** [add_controller_hb_edge]; the text logged at the end is kept without the
    digits of the two tags. *)
Definition add_controller_hb_edge (mid_out_ mid_in_ : Tag) : M unit :=
  temporary_tag ← on_mids generate_unused_tag ;
  write_event_to_trace (HbControllerHandle mid_out_ temporary_tag) ;;
  write_event_to_trace (HbControllerSend temporary_tag mid_in_) ;;
  info "Adding controller edge: mid_out -> mid_in.".

(** The first tuple of a list whose message is [b64msg]. *)
Definition first_match (b64msg : string) (l : list (Tag * string))
  : option (Tag * string) :=
  head (filter (λ x, b64msg = x.2) l).

(** The scan over [keys()] of the dpids that have no swid yet: the first
    dpid, and in its list the first tuple, whose message is [b64msg]. *)
Fixpoint scan_unbound (b64msg : string) (bound : gmap Z Z) (d : DefaultDict)
  : option (Z * (Tag * string)) :=
  match d with
  | [] => None
  | (dpid_key, l) :: d' =>
      match bound !! dpid_key with
      | None =>
          match first_match b64msg l with
          | Some x => Some (dpid_key, x)
          | None => scan_unbound b64msg bound d'
          end
      | Some _ => scan_unbound b64msg bound d'
      end
  end.

(** The lookup of the dpid of [swid] that opens both searches. *)
Definition dpid_of_swid (swid : Z) : M (option Z) :=
  s2d ← gets swid_to_dpid ;
  match s2d !! swid with
  | Some d =>
      d2s ← gets dpid_to_swid ;
      swid' ← subscript d2s d ;
      py_assert (bool_decide (swid' = swid)) ;;
      ret (Some d)
  | None => ret None
  end.

(** [find_controller_packet_in] *)
Definition find_controller_packet_in (swid : Z) (b64msg : string)
  : M (option Tag) :=
  known ← gets controller_msgin_to_mid_out ;
  match known !! (swid, b64msg) with
  | Some mid_out_ => ret (Some mid_out_)
  | None =>
      d ← dpid_of_swid swid ;
      match d with
      | None =>
          unmatched ← gets unmatched_HbMessageSend ;
          d2s ← gets dpid_to_swid ;
          match scan_unbound b64msg d2s unmatched with
          | Some (dpid_key, x) =>
              modify (λ s, set_swid_to_dpid
                             (<[swid := dpid_key]> (swid_to_dpid s)) s) ;;
              modify (λ s, set_dpid_to_swid
                             (<[dpid_key := swid]> (dpid_to_swid s)) s) ;;
              modify (set_unmatched_HbMessageSend
                        (dd_set dpid_key
                           (list_remove x (dd_get dpid_key unmatched))
                           unmatched)) ;;
              ret (Some x.1)
          | None => ret None
          end
      | Some d =>
          unmatched ← gets unmatched_HbMessageSend ;
          match first_match b64msg (dd_get d unmatched) with
          | Some x =>
              modify (set_unmatched_HbMessageSend
                        (dd_set d (list_remove x (dd_get d unmatched))
                           unmatched)) ;;
              ret (Some x.1)
          | None => ret None
          end
      end
  end.

(** [find_controller_packet_out] *)
Definition find_controller_packet_out (swid : Z) (b64msg : string)
  : M (option Tag) :=
  d ← dpid_of_swid swid ;
  match d with
  | None =>
      unmatched ← gets unmatched_HbMessageHandle ;
      d2s ← gets dpid_to_swid ;
      match scan_unbound b64msg d2s unmatched with
      | Some (dpid_key, x) =>
          modify (λ s, set_swid_to_dpid
                         (<[swid := dpid_key]> (swid_to_dpid s)) s) ;;
          modify (λ s, set_dpid_to_swid
                         (<[dpid_key := swid]> (dpid_to_swid s)) s) ;;
          modify (set_unmatched_HbMessageHandle
                    (dd_set dpid_key
                       (list_remove x (dd_get dpid_key unmatched))
                       unmatched)) ;;
          ret (Some x.1)
      | None => ret None
      end
  | Some d =>
      unmatched ← gets unmatched_HbMessageHandle ;
      match first_match b64msg (dd_get d unmatched) with
      | Some x =>
          modify (set_unmatched_HbMessageHandle
                    (dd_set d (list_remove x (dd_get d unmatched))
                       unmatched)) ;;
          ret (Some x.1)
      | None => ret None
      end
  end.

(** [controller_ack_in] *)
Definition controller_ack_in (swid : Z) (b64msg : string) : M unit :=
  mid_out_ ← find_controller_packet_in swid b64msg ;
  match mid_out_ with
  | None => py_assert false
  | Some m =>
      modify (λ s, set_controller_msgin_to_mid_out
                     (<[(swid, b64msg) := m]> (controller_msgin_to_mid_out s))
                     s)
  end.

(** [controller_ack_out] *)
Definition controller_ack_out (in_swid : Z) (in_b64msg : string)
    (out_swid : Z) (out_b64msg : string) : M unit :=
  mid_out_ ← find_controller_packet_in in_swid in_b64msg ;
  match mid_out_ with
  | None => py_assert false
  | Some mid_out_ =>
      mid_in_ ← find_controller_packet_out out_swid out_b64msg ;
      match mid_in_ with
      | None =>
          modify (λ s, set_unmatched_lines_controller_msgout
                         (unmatched_lines_controller_msgout s
                          ++ [(in_swid, in_b64msg, out_swid, out_b64msg)]) s)
      | Some mid_in_ => add_controller_hb_edge mid_out_ mid_in_
      end
  end.

(** The first loop of [match_unmatched_controller_msgout], run when the dpid
    has no swid: every line with the message binds the dpid to its swid, and
    the last such line is the one kept. *)
Fixpoint bind_matching_lines (dpid_ : Z) (out_b64msg : string)
    (lines : list MsgOutLine) (matched_line : option MsgOutLine)
  : M (option MsgOutLine) :=
  match lines with
  | [] => ret matched_line
  | line :: lines' =>
      let '(lin_swid, lin_b64msg, lout_swid, lout_b64msg) := line in
      if decide (out_b64msg = lout_b64msg) then
        modify (λ s, set_dpid_to_swid
                       (<[dpid_ := lout_swid]> (dpid_to_swid s)) s) ;;
        modify (λ s, set_swid_to_dpid
                       (<[lout_swid := dpid_]> (swid_to_dpid s)) s) ;;
        bind_matching_lines dpid_ out_b64msg lines' (Some line)
      else bind_matching_lines dpid_ out_b64msg lines' matched_line
  end.

(** The second loop: the last line with the message. *)
Definition last_matching_line (out_b64msg : string) (lines : list MsgOutLine)
  : option MsgOutLine :=
  last (filter (λ line : MsgOutLine, out_b64msg = line.2) lines).

(** [match_unmatched_controller_msgout].  The call
    [self.find_controller_packet_in(self, lin_swid, lin_b64msg)] hands the
    method one argument too many: Python raises [TypeError] there, and the
    statements after the call are never reached. *)
Definition match_unmatched_controller_msgout (mid_in_ : Tag) (dpid_ : Z)
    (out_b64msg : string) : M bool :=
  d2s ← gets dpid_to_swid ;
  swid ← match d2s !! dpid_ with
         | Some swid =>
             s2d ← gets swid_to_dpid ;
             dpid' ← subscript s2d swid ;
             py_assert (bool_decide (dpid' = dpid_)) ;;
             ret (Some swid)
         | None => ret None
         end ;
  lines ← gets unmatched_lines_controller_msgout ;
  matched_line ←
    match swid with
    | None => bind_matching_lines dpid_ out_b64msg lines None
    | Some _ => ret (last_matching_line out_b64msg lines)
    end ;
  match matched_line with
  | Some line =>
      modify (λ s, set_unmatched_lines_controller_msgout
                     (list_remove line (unmatched_lines_controller_msgout s))
                     s) ;;
      raise TypeError
  | None => ret false
  end.

(** **** Switch events *)

(** [handle_switch_ph_begin] *)
Definition handle_switch_ph_begin (dpid_ : Z) (packet_ : Packet)
    (in_port_ : Z) : M unit :=
  pid_in_ ← on_pids (get_tag (packet_id packet_)) ;
  let begin_event := HbPacketHandle pid_in_ dpid_ packet_ in_port_ in
  start_switch_event dpid_ begin_event.

(** [handle_switch_ph_end] *)
Definition handle_switch_ph_end (dpid_ : Z) : M unit :=
  finish_switch_event dpid_.

(** [handle_switch_mh_begin] *)
Definition handle_switch_mh_begin (dpid_ : Z) (controller_id_ : string)
    (msg_ : Message) (flow_mod : option string) : M unit :=
  mid_in_ ← on_mids (get_tag (msg_id msg_)) ;
  let msg_type_ := header_type msg_ in
  let msg_flowmod_ := flow_mod in
  let begin_event :=
    HbMessageHandle mid_in_ msg_type_ dpid_ controller_id_ msg_ msg_flowmod_ in
  start_switch_event dpid_ begin_event ;;
  is_matched ←
    match_unmatched_controller_msgout mid_in_ dpid_ (base64_encode msg_) ;
  if negb is_matched then
    modify (λ s, set_unmatched_HbMessageHandle
                   (dd_append dpid_ (mid_in_, base64_encode msg_)
                      (unmatched_HbMessageHandle s)) s)
  else ret tt.

(** [handle_switch_mh_end] *)
Definition handle_switch_mh_end (dpid_ : Z) : M unit :=
  finish_switch_event dpid_.

(** [handle_switch_ms] *)
Definition handle_switch_ms (dpid_ : Z) (controller_id_ : string)
    (msg_ : Message) : M unit :=
  mid_in_ ← on_mids (new_tag (msg_id msg_)) ;
  mid_out_ ← on_mids (new_tag (msg_id msg_)) ;
  let msg_type_ := header_type msg_ in
  modify (λ s, set_mids (remove_obj (msg_id msg_) (mids s)) s) ;;
  let new_event :=
    HbMessageSend mid_in_ mid_out_ msg_type_ dpid_ controller_id_ msg_ in
  add_successor_to_switch_event dpid_ new_event (Some mid_in_) None ;;
  modify (λ s, set_unmatched_HbMessageSend
                 (dd_append dpid_ (mid_out_, base64_encode msg_)
                    (unmatched_HbMessageSend s)) s).

(** [handle_switch_ps] *)
Definition handle_switch_ps (dpid_ : Z) (packet_ : Packet) (out_port_ : Z)
  : M unit :=
  pid_in_ ← on_pids (new_tag (packet_id packet_)) ;
  pid_out_ ← on_pids (new_tag (packet_id packet_)) ;
  let new_event := HbPacketSend pid_in_ pid_out_ dpid_ packet_ out_port_ in
  add_successor_to_switch_event dpid_ new_event None (Some pid_in_).

(** **** Switch operation events *)

(** [handle_switch_table_read] *)
Definition handle_switch_table_read (event : TraceEvent) : M unit :=
  add_operation_to_switch_event event.

(** [handle_switch_table_write] *)
Definition handle_switch_table_write (event : TraceEvent) : M unit :=
  add_operation_to_switch_event event.

(** [handle_switch_table_entry_expiry] *)
Definition handle_switch_table_entry_expiry (event : TraceEvent) : M unit :=
  add_operation_to_switch_event event.

(** [handle_switch_buf_put] *)
Definition handle_switch_buf_put (event : TraceEvent) (dpid_ : Z)
    (packet_ : Packet) : M unit :=
  started ← is_switch_event_started dpid_ ;
  (if started then
     handles ← gets started_switch_event ;
     h ← subscript handles dpid_ ;
     py_assert (bool_decide (class h = HbPacketHandle_class)) ;;
     tag ← on_pids (get_tag (packet_id packet_)) ;
     handles ← gets started_switch_event ;
     h ← subscript handles dpid_ ;
     py_assert (bool_decide (Some tag = pid_in h)) ;;
     pid_out_ ← on_pids (new_tag (packet_id packet_)) ;
     update_started dpid_ (append_pid_out pid_out_)
   else ret tt) ;;
  add_operation_to_switch_event event.

(** [handle_switch_buf_get] *)
Definition handle_switch_buf_get (event : TraceEvent) (dpid_ : Z)
    (packet_ : Packet) : M unit :=
  started ← is_switch_event_started dpid_ ;
  (if started then
     handles ← gets started_switch_event ;
     h ← subscript handles dpid_ ;
     py_assert (bool_decide (class h = HbMessageHandle_class)) ;;
     pid_in_ ← on_pids (get_tag (packet_id packet_)) ;
     update_started dpid_ (set_pid_in pid_in_)
   else ret tt) ;;
  add_operation_to_switch_event event.

(** **** Switch bookkeeping operations *)

(** [handle_switch_pu_begin] *)
Definition handle_switch_pu_begin (dpid_ : Z) (packet_ : Packet) : M unit :=
  tag ← on_pids (get_tag (packet_id packet_)) ;
  modify (λ s, set_pending_packet_update
                 (<[dpid_ := tag]> (pending_packet_update s)) s).

(** [handle_switch_pu_end] *)
Definition handle_switch_pu_end (dpid_ : Z) (packet_ : Packet) : M unit :=
  pending ← gets pending_packet_update ;
  py_assert (bool_decide (is_Some (pending !! dpid_))) ;;
  tag ← subscript pending dpid_ ;
  modify (λ s, set_pids (replace_obj tag (packet_id packet_) (pids s)) s).

(** **** Host events *)

(** [handle_host_ph_begin] *)
Definition handle_host_ph_begin (hid_ : Z) (packet_ : Packet) (in_port_ : Z)
  : M unit :=
  pid_in_ ← on_pids (get_tag (packet_id packet_)) ;
  let begin_event := HbHostHandle pid_in_ hid_ packet_ in_port_ in
  start_host_event hid_ begin_event.

(** [handle_host_ph_end] *)
Definition handle_host_ph_end (hid_ : Z) : M unit :=
  finish_host_event hid_.

(** [handle_host_ps] *)
Definition handle_host_ps (hid_ : Z) (packet_ : Packet) (out_port_ : Z)
  : M unit :=
  pid_in_ ← on_pids (new_tag (packet_id packet_)) ;
  pid_out_ ← on_pids (new_tag (packet_id packet_)) ;
  let new_event := HbHostSend pid_in_ pid_out_ hid_ packet_ out_port_ in
  add_successor_to_host_event hid_ new_event (Some pid_in_).

(** **** Dispatch *)

(** The handler [event_handlers] has for the type of the event, if any. *)
Definition handler (event : TraceEvent) : option (M unit) :=
  match event with
  | TraceHostPacketHandleBegin h p i => Some (handle_host_ph_begin h p i)
  | TraceHostPacketHandleEnd h => Some (handle_host_ph_end h)
  | TraceHostPacketSend h p o => Some (handle_host_ps h p o)
  | TraceSwitchPacketHandleBegin d p i => Some (handle_switch_ph_begin d p i)
  | TraceSwitchPacketHandleEnd d => Some (handle_switch_ph_end d)
  | TraceSwitchMessageHandleBegin d c m _ f =>
      Some (handle_switch_mh_begin d c m f)
  | TraceSwitchMessageHandleEnd d => Some (handle_switch_mh_end d)
  | TraceSwitchMessageSend d _ c m => Some (handle_switch_ms d c m)
  | TraceSwitchPacketSend d p o => Some (handle_switch_ps d p o)
  | TraceSwitchFlowTableRead _ _ _ _ _ _ _ =>
      Some (handle_switch_table_read event)
  | TraceSwitchFlowTableWrite _ _ _ => Some (handle_switch_table_write event)
  | TraceSwitchFlowTableEntryExpiry _ _ _ =>
      Some (handle_switch_table_entry_expiry event)
  | TraceSwitchBufferPut d p _ _ => Some (handle_switch_buf_put event d p)
  | TraceSwitchBufferGet d p _ _ => Some (handle_switch_buf_get event d p)
  | TraceSwitchPacketUpdateBegin d p => Some (handle_switch_pu_begin d p)
  | TraceSwitchPacketUpdateEnd d p => Some (handle_switch_pu_end d p)
  | TraceAsyncSwitchFlowExpirationBegin _
  | TraceAsyncSwitchFlowExpirationEnd _
  | TraceSwitchMessageRx _ _ _ _
  | TraceSwitchMessageTx _ _ _ _ => None
  end.

(** [handle_no_exceptions]: an exception of the handler is caught and its
    traceback printed; what the handler had done by then stays done. *)
Definition handle_no_exceptions (event : TraceEvent) (s : t) : t :=
  match handler event with
  | Some h =>
      match h s with
      | Ok _ s' => s'
      | Raise e s' => set_log (log s' ++ [Traceback e]) s'
      end
  | None => s
  end.

(** A line of the controller, as [_handle_line_match] parses it. *)
Inductive ControllerLine :=
| MessageIn (swid : Z) (b64msg : string)
| MessageOut (in_swid : Z) (in_b64msg : string) (out_swid : Z)
    (out_b64msg : string).

(** [_handle_line_match], after the parsing of the line; the log record that
    repeats the raw line is left out. *)
Definition handle_line_match (line : ControllerLine) : M unit :=
  match line with
  | MessageIn swid b64msg => controller_ack_in swid b64msg
  | MessageOut in_swid in_b64msg out_swid out_b64msg =>
      controller_ack_out in_swid in_b64msg out_swid out_b64msg
  end.

(** What reaches the logger: events of the simulator and lines of the
    controller.  An exception of a controller line is not caught by the
    logger; the attributes keep what was assigned before it. *)
Inductive Input :=
| Simulator (event : TraceEvent)
| Controller (line : ControllerLine).

Definition step (s : t) (i : Input) : t :=
  match i with
  | Simulator event => handle_no_exceptions event s
  | Controller line => state_of (handle_line_match line s)
  end.

Definition run (inputs : list Input) (s : t) : t := foldl step s inputs.

(** *** Notions used to state the properties *)

(** Writing a list of events to the trace, one after the other. *)
Definition emit (l : list HbEvent) (s : t) : t :=
  set_output (output s ++ l) (set_log (log s ++ (InfoEvent <$> l)) s).

(** The three flow-table operations. *)
Definition is_flow_table_operation (event : TraceEvent) : bool :=
  match event with
  | TraceSwitchFlowTableRead _ _ _ _ _ _ _
  | TraceSwitchFlowTableWrite _ _ _
  | TraceSwitchFlowTableEntryExpiry _ _ _ => true
  | _ => false
  end.

(** What happens for a dpid between the begin and the end of a handle:
    a successor is announced, or an operation is reported. *)
Inductive Action :=
| Successor (event : HbEvent) (mid_in_ pid_in_ : option Tag)
| Operation (event : TraceEvent).

Definition act (dpid_ : Z) (a : Action) : M unit :=
  match a with
  | Successor event mid_in_ pid_in_ =>
      add_successor_to_switch_event dpid_ event mid_in_ pid_in_
  | Operation event => add_operation_to_switch_event event
  end.

Definition on_dpid (dpid_ : Z) (a : Action) : Prop :=
  match a with
  | Successor _ _ _ => True
  | Operation event => trace_dpid event = Some dpid_
  end.

(** What an action leaves on the started handle. *)
Definition accrue (h : SwitchHandle) (a : Action) : SwitchHandle :=
  match a with
  | Successor _ mid_in_ pid_in_ =>
      let h := match mid_in_ with Some m => append_mid_out m h | None => h end in
      match pid_in_ with Some p => append_pid_out p h | None => h end
  | Operation event => append_operation event h
  end.

(** The successors among the actions, in the order of arrival. *)
Definition successors (acts : list Action) : list HbEvent :=
  acts ≫= (λ a, match a with
                | Successor event _ _ => [event]
                | Operation _ => []
                end).

(** The swid of the line is bound to a dpid that is bound back to it. *)
Definition swid_consistent (s : t) (swid : Z) : Prop :=
  ∀ d, swid_to_dpid s !! swid = Some d → dpid_to_swid s !! d = Some swid.

(** The dictionary holds each key once. *)
Definition keys_unique (d : DefaultDict) : Prop := NoDup d.*1.

(** The tuple is in the list that [unmatched_HbMessageSend] holds for the
    dpid. *)
Definition sent_under (s : t) (d : Z) (x : Tag * string) : Prop :=
  ∃ l, (d, l) ∈ unmatched_HbMessageSend s ∧ x ∈ l.

(** The dpids a line of [swid] may stem from: the dpid [swid] is bound to or,
    as long as it is bound to none, every dpid that has no swid. *)
Definition searched (s : t) (swid d : Z) : Prop :=
  match swid_to_dpid s !! swid with
  | Some d' => d = d'
  | None => dpid_to_swid s !! d = None
  end.

(** No outbound tuple of a switch matches the line: the pair is not recorded,
    and no tuple with the message is stored under a dpid the line may stem
    from. *)
Definition no_outbound (s : t) (swid : Z) (b64msg : string) : Prop :=
  controller_msgin_to_mid_out s !! (swid, b64msg) = None
  ∧ ∀ d m, searched s swid d → ¬ sent_under s d (m, b64msg).

(** A switch handle has a [pid_out] for each [BufferPut] among its
    operations. *)
Definition buffered_have_pid_out (h : SwitchHandle) : Prop :=
  (length (filter (λ op, is_BufferPut op = true) (operations h))
   ≤ length (pid_out h))%nat.

Definition event_ok (e : HbEvent) : Prop :=
  match e with
  | OfSwitchHandle h => buffered_have_pid_out h
  | _ => True
  end.

(** The invariant of the logger behind it: it holds of the handles being
    assembled, of the queued events and of the trace. *)
Definition handles_ok (s : t) : Prop :=
  Forall event_ok (output s)
  ∧ (∀ d h, started_switch_event s !! d = Some h → buffered_have_pid_out h)
  ∧ (∀ d q, new_switch_events s !! d = Some q → Forall event_ok q)
  ∧ (∀ d q, new_host_events s !! d = Some q → Forall event_ok q).

(** The part of the logger the trace is assembled in. *)
Definition view (s : t) :=
  (output s, started_switch_event s, new_switch_events s, new_host_events s).

Definition frames {A} (m : M A) : Prop :=
  ∀ s, view (state_of (m s)) = view s.

(** A method keeps the invariant, however it ends. *)
Definition preserves {A} (m : M A) : Prop :=
  ∀ s, handles_ok s → handles_ok (state_of (m s)).

(** A method keeps the keys of [unmatched_HbMessageSend] apart, however it
    ends. *)
Definition keeps_keys {A} (m : M A) : Prop :=
  ∀ s, keys_unique (unmatched_HbMessageSend s) →
       keys_unique (unmatched_HbMessageSend (state_of (m s))).

End Logger.

(** *** A sample run of the logger

    Switch 1 handles a packet, reads its flow table, buffers the packet and
    sends a PACKET_IN; the controller, which knows the switch as 5, reports
    the message and its reply, a FLOW_MOD; the switch then handles the
    FLOW_MOD. *)

Module LoggerSample.
Import Logger.

Definition pkt : Packet := mkPacket 100 "P".
Definition packet_in : Message := mkMessage 200 "PI" 10.
Definition flow_mod : Message := mkMessage 300 "FM" 14.

Definition table_read : TraceEvent :=
  TraceSwitchFlowTableRead 1 pkt 2 "table" "entry" None None.
Definition table_write : TraceEvent :=
  TraceSwitchFlowTableWrite 1 "table" "entry".
Definition buffer_put : TraceEvent := TraceSwitchBufferPut 1 pkt 2 7.

Definition packet_handled : list Input :=
  [Simulator (TraceSwitchPacketHandleBegin 1 pkt 2);
   Simulator table_read;
   Simulator buffer_put;
   Simulator (TraceSwitchMessageSend 1 0 "c1" packet_in);
   Simulator (TraceSwitchPacketHandleEnd 1)].

Definition controller_lines : list Input :=
  [Controller (MessageIn 5 "PI");
   Controller (MessageOut 5 "PI" 5 "FM")].

Definition flow_mod_begin : Input :=
  Simulator (TraceSwitchMessageHandleBegin 1 "c1" flow_mod 14 None).

(** The logger once the packet handle has begun. *)
Definition after_begin : t :=
  Eval vm_compute in
    run [Simulator (TraceSwitchPacketHandleBegin 1 pkt 2)] init.

(** The handle begun there. *)
Definition begun : SwitchHandle := HbPacketHandle 1 1 pkt 2.

(** The logger once the controller's two lines are read: the second line
    waits for the FLOW_MOD to reach the switch. *)
Definition line_buffered : t :=
  Eval vm_compute in run (packet_handled ++ controller_lines) init.

(** The logger once the FLOW_MOD has reached the switch. *)
Definition flow_mod_begun : t :=
  Eval vm_compute in step line_buffered flow_mod_begin.

(** What happens during the packet handle, as the helpers see it. *)
Definition during_handle : list Action :=
  [Operation table_read;
   Successor (HbMessageSend 1 2 10 1 "c1" packet_in) (Some 1) None;
   Successor (HbPacketSend 3 4 1 pkt 3) None (Some 3)].

Definition is_controller_event (e : HbEvent) : bool :=
  match e with
  | HbControllerHandle _ _ | HbControllerSend _ _ => true
  | _ => false
  end.

(** The handle written at the end of [packet_handled]. *)
Definition packet_handle_written : SwitchHandle :=
  append_mid_out 1
    (append_operation buffer_put
       (append_pid_out 2 (append_operation table_read begun))).

Definition message_x : Message := mkMessage 400 "X" 10.

(** Two lines of the controller name the FLOW_MOD as sent to the switches 6
    and 7; switch 2 then handles it and sends a message of its own. *)
Definition rebinding : list Input :=
  [Simulator (TraceSwitchMessageSend 1 0 "c1" packet_in);
   Controller (MessageIn 5 "PI");
   Controller (MessageOut 5 "PI" 6 "FM");
   Controller (MessageOut 5 "PI" 7 "FM");
   Simulator (TraceSwitchMessageHandleBegin 2 "c1" flow_mod 14 None);
   Simulator (TraceSwitchMessageSend 2 0 "c1" message_x)].

Definition rebound : t := Eval vm_compute in run rebinding init.

(** The logger once switch 1 has sent its PACKET_IN. *)
Definition packet_in_queued : t :=
  Eval vm_compute in
    run [Simulator (TraceSwitchMessageSend 1 0 "c1" packet_in)] init.

End LoggerSample.

(** * Properties *)

Module DiGraphFacts.
Import DiGraph.

(** *** The search computes reachability *)

Lemma elem_of_successors g X v :
  v ∈ successors g X ↔ ∃ u, u ∈ X ∧ edge g u v.
Proof.
  unfold successors, edge. rewrite elem_of_list_to_set, list_elem_of_fmap.
  split.
  - intros [[u w] [-> Hin]]. apply list_elem_of_filter in Hin as [HX Hg].
    exists u. auto.
  - intros (u & HX & Hg). exists (u, v). split; [done|].
    apply list_elem_of_filter. auto.
Qed.

Lemma bfs_step_incl g X : X ⊆ bfs_step g X.
Proof. unfold bfs_step. set_solver. Qed.

Lemma elem_of_bfs_step g X v :
  v ∈ bfs_step g X ↔ v ∈ X ∨ ∃ u, u ∈ X ∧ edge g u v.
Proof. unfold bfs_step. by rewrite elem_of_union, elem_of_successors. Qed.

Lemma iter_bfs_sound g s n v :
  v ∈ bfs n g {[ s ]} → path g s v.
Proof.
  revert v. induction n as [|n IH]; simpl; intros v Hv.
  - apply elem_of_singleton in Hv as ->. apply rtc_refl.
  - apply elem_of_bfs_step in Hv as [Hv|(u & Hu & He)]; [auto|].
    eapply rtc_r; [apply IH, Hu | exact He].
Qed.

Lemma size_targets g : (size (targets g) ≤ length g)%nat.
Proof.
  unfold targets. induction g as [|e g IH].
  - rewrite fmap_nil, list_to_set_nil, size_empty. simpl. lia.
  - rewrite fmap_cons, list_to_set_cons. simpl length.
    etrans; [apply Nat.eq_le_incl, size_union_alt|]. rewrite size_singleton.
    assert (size (list_to_set (g.*2) ∖ {[e.2]} : gset Z)
              ≤ size (list_to_set (g.*2) : gset Z))%nat
      by (apply subseteq_size, subseteq_difference_l; done).
    lia.
Qed.

Lemma iter_bfs_bounded g s n :
  bfs n g {[ s ]} ⊆ {[ s ]} ∪ targets g.
Proof.
  induction n as [|n IH]; simpl; [set_solver|].
  intros v Hv. apply elem_of_bfs_step in Hv as [Hv|(u & _ & He)]; [auto|].
  apply elem_of_union_r. unfold targets.
  apply elem_of_list_to_set, list_elem_of_fmap. by exists (u, v).
Qed.

Lemma iter_bfs_closed_or_grows g s n :
  bfs_step g (bfs n g {[ s ]})
    = bfs n g {[ s ]}
  ∨ (n + 1 ≤ size (bfs n g {[ s ]}))%nat.
Proof.
  induction n as [|n IH]; simpl bfs.
  - right. rewrite size_singleton. lia.
  - destruct IH as [IH|IH]; [left; by rewrite !IH|].
    set (X := bfs n g {[ s ]}) in *.
    destruct (decide (bfs_step g X ⊆ X)) as [Hsub|Hsub].
    + left. assert (bfs_step g X = X) as ->; [|].
      { apply (anti_symm (⊆)); [done | apply bfs_step_incl]. }
      apply (anti_symm (⊆)); [done | apply bfs_step_incl].
    + right. assert (X ⊂ bfs_step g X) as Hlt.
      { split; [apply bfs_step_incl | done]. }
      apply subset_size in Hlt. lia.
Qed.

Lemma descendants_closed g s :
  bfs_step g (descendants_or_self g s) = descendants_or_self g s.
Proof.
  unfold descendants_or_self.
  destruct (iter_bfs_closed_or_grows g s (S (length g))) as [H|H]; [done|].
  pose proof (subseteq_size _ _ (iter_bfs_bounded g s (S (length g)))) as Hb.
  fold (bfs (S (length g)) g {[ s ]}) in H.
  pose proof (size_union_alt ({[ s ]} : gset Z) (targets g)) as Hu.
  assert (size (targets g ∖ {[ s ]}) ≤ size (targets g))%nat as Hd
    by (apply subseteq_size, subseteq_difference_l; done).
  pose proof (size_targets g). rewrite size_singleton in Hu. lia.
Qed.

Lemma elem_of_descendants g s v :
  v ∈ descendants_or_self g s ↔ path g s v.
Proof.
  split; [apply iter_bfs_sound|].
  unfold path. revert v.
  apply (rtc_ind_r (λ v, v ∈ descendants_or_self g s)); [|intros u w _ Hedge IH].
  - unfold descendants_or_self.
    generalize (S (length g)). intros n. induction n; simpl; [set_solver|].
    by apply bfs_step_incl.
  - rewrite <- descendants_closed. apply elem_of_bfs_step. eauto.
Qed.

Lemma has_path_spec g s v : has_path g s v = true ↔ path g s v.
Proof.
  unfold has_path. rewrite bool_decide_eq_true. apply elem_of_descendants.
Qed.

Lemma has_path_refl g s : has_path g s s = true.
Proof. apply has_path_spec, rtc_refl. Qed.

Lemma path_reverse g u v : path (reverse g) u v ↔ path g v u.
Proof.
  assert (∀ h a b, edge (reverse h) a b ↔ edge h b a) as He.
  { intros h a b. unfold edge, reverse. rewrite list_elem_of_fmap. split.
    - intros [[x y] [[= -> ->] Hin]]. done.
    - intros Hin. by exists (b, a). }
  split.
  - induction 1 as [|a b c Hab _ IH]; [apply rtc_refl|].
    eapply rtc_r; [exact IH | by apply He].
  - induction 1 as [|a b c Hab _ IH]; [apply rtc_refl|].
    eapply rtc_r; [exact IH | by apply He].
Qed.

Lemma elem_of_ancestors g s v :
  v ∈ ancestors g s ↔ v ≠ s ∧ path g v s.
Proof.
  unfold ancestors.
  rewrite elem_of_difference, elem_of_descendants, path_reverse.
  rewrite elem_of_singleton. tauto.
Qed.

End DiGraphFacts.

Module RaceDetectorFacts.
Import DiGraph DiGraphFacts RaceDetector.

(** *** Sets of events *)

Lemma elem_of_add e x X : x ∈ add e X ↔ x = e ∨ x ∈ X.
Proof.
  unfold add. destruct (decide (e ∈ X)) as [Hin|Hin].
  - split; [auto|]. intros [->|]; done.
  - rewrite elem_of_app, list_elem_of_singleton. tauto.
Qed.

Lemma elem_of_add_all l x X : x ∈ add_all l X ↔ x ∈ l ∨ x ∈ X.
Proof.
  unfold add_all. revert X. induction l as [|e l IH]; intros X; simpl.
  - rewrite elem_of_nil. tauto.
  - rewrite IH, elem_of_add, elem_of_cons. tauto.
Qed.

(** *** The graph queries *)

Lemma is_ordered_spec s a b :
  is_ordered s a b = true
  ↔ path (g (graph s)) (eid a) (eid b) ∨ path (g (graph s)) (eid b) (eid a).
Proof.
  unfold is_ordered, is_reachable.
  pose proof (has_path_spec (g (graph s)) (eid a) (eid b)) as Hab.
  pose proof (has_path_spec (g (graph s)) (eid b) (eid a)) as Hba.
  destruct (Z.ltb_spec (eid a) (eid b)) as [Hlt|Hge];
    destruct (Z.gtb_spec (eid a) (eid b)) as [Hgt|Hle]; try lia.
  - destruct (has_path _ (eid a) (eid b)), (has_path _ (eid b) (eid a));
      intuition congruence.
  - destruct (has_path _ (eid a) (eid b)), (has_path _ (eid b) (eid a));
      intuition congruence.
  - assert (eid a = eid b) as Heq by lia.
    rewrite has_path_refl. split; [intros _|done].
    left. rewrite Heq. apply rtc_refl.
Qed.

Lemma is_ordered_false s a b :
  is_ordered s a b = false
  ↔ ¬ path (g (graph s)) (eid a) (eid b)
    ∧ ¬ path (g (graph s)) (eid b) (eid a).
Proof.
  rewrite <- not_true_iff_false, is_ordered_spec. tauto.
Qed.

Lemma has_common_ancestor_spec s a b :
  has_common_ancestor s a b = true
  ↔ ∃ x, path (g (graph s)) x (eid a) ∧ path (g (graph s)) x (eid b).
Proof.
  unfold has_common_ancestor. rewrite negb_true_iff, bool_decide_eq_false.
  assert (∀ v e, v ∈ ancestors (g (graph s)) e ∪ {[ e ]}
                 ↔ path (g (graph s)) v e) as Hin.
  { intros v e. rewrite elem_of_union, elem_of_ancestors, elem_of_singleton.
    split; [intros [[_ H]| ->]; [done | apply rtc_refl] |].
    intros H. destruct (decide (v = e)); auto. }
  split.
  - intros Hnd.
    set (X := ancestors (g (graph s)) (eid a) ∪ {[ eid a ]}) in *.
    set (Y := ancestors (g (graph s)) (eid b) ∪ {[ eid b ]}) in *.
    destruct (decide (X ∩ Y = ∅)) as [He|Hne].
    + exfalso. apply Hnd. by apply disjoint_intersection_L.
    + apply set_choose_L in Hne as [x Hx].
      apply elem_of_intersection in Hx as [Hx1 Hx2].
      exists x. split; by apply Hin.
  - intros (x & H1 & H2) Hd. apply (Hd x); by apply Hin.
Qed.

Lemma is_ordered_graph s s' a b :
  graph s = graph s' → is_ordered s a b = is_ordered s' a b.
Proof. unfold is_ordered, is_reachable. by intros ->. Qed.

Lemma candidate_graph event s s' a b :
  graph s = graph s' → candidate event s a b = candidate event s' a b.
Proof. intros H. unfold candidate. by rewrite (is_ordered_graph s s'). Qed.

Lemma has_common_ancestor_graph s s' a b :
  graph s = graph s' → has_common_ancestor s a b = has_common_ancestor s' a b.
Proof. unfold has_common_ancestor. by intros ->. Qed.

(** *** Closed forms of the loops *)

Lemma record_race_closed c r s :
  record_race c r s
  = mkDetector (graph s) (read_operations s) (write_operations s)
      (races_harmful s ++ (if c then [] else [r]))
      (races_commute s ++ (if c then [r] else []))
      (add (k_event r) (add (i_event r) (racing_events s)))
      (if c then racing_events_harmful s
       else add (k_event r) (add (i_event r) (racing_events_harmful s)))
      (total_operations s) (total_harmful s) (total_commute s)
      (total_filtered s) (total_races s) (filter_rw s).
Proof. destruct s, c; simpl; by rewrite ?app_nil_r. Qed.

Lemma record_all_closed l s :
  record_all l s
  = mkDetector (graph s) (read_operations s) (write_operations s)
      (races_harmful s ++ (harmful l).*2)
      (races_commute s ++ (commuting l).*2)
      (add_all (events_of l) (racing_events s))
      (add_all (events_of (harmful l)) (racing_events_harmful s))
      (total_operations s) (total_harmful s) (total_commute s)
      (total_filtered s) (total_races s) (filter_rw s).
Proof.
  unfold record_all. revert s. induction l as [|[c r] l IH]; intros s.
  - destruct s; simpl. by rewrite !app_nil_r.
  - simpl foldl. rewrite IH, record_race_closed. unfold harmful, commuting.
    rewrite !filter_cons.
    destruct c; simpl; by rewrite ?app_nil_r, <- ?app_assoc.
Qed.

Lemma record_all_cons c r l s :
  record_all ((c, r) :: l) s = record_all l (record_race c r s).
Proof. reflexivity. Qed.

Lemma record_race_total_filtered c r s :
  total_filtered (record_race c r s) = total_filtered s.
Proof. by rewrite record_race_closed. Qed.

Lemma record_all_app l1 l2 s :
  record_all (l1 ++ l2) s = record_all l2 (record_all l1 s).
Proof. unfold record_all. apply foldl_app. Qed.

Lemma record_all_total_filtered l v s :
  record_all l (set_total_filtered v s)
  = set_total_filtered v (record_all l s).
Proof. by rewrite !record_all_closed. Qed.

Section Checker.

Variable check_commutativity_ww
  : Event → Operation → Event → Operation → bool.
Variable check_commutativity_rw
  : Event → Operation → Event → Operation → bool.

#[local] Abbreviation ww_body := (ww_body check_commutativity_ww).
#[local] Abbreviation rw_body := (rw_body check_commutativity_rw).
#[local] Abbreviation commutes_ww := (commutes_ww check_commutativity_ww).
#[local] Abbreviation commutes_rw := (commutes_rw check_commutativity_rw).
#[local] Abbreviation detect_ww_races := (detect_ww_races check_commutativity_ww).
#[local] Abbreviation detect_rw_races := (detect_rw_races check_commutativity_rw).
#[local] Abbreviation detect_races :=
  (detect_races check_commutativity_ww check_commutativity_rw).
#[local] Abbreviation verdicts :=
  (verdicts check_commutativity_ww check_commutativity_rw).

Lemma ww_body_cases event s0 s p :
  graph s = graph s0 →
  ww_body event p s
  = if passes event s0 p
    then record_race (commutes_ww p) (race_of "w/w" p) s
    else s.
Proof.
  intros HG. destruct p as [[i io] [k ko]]. unfold passes. simpl.
  by rewrite (candidate_graph event s s0).
Qed.

Lemma ww_loop_closed event s0 l s :
  graph s = graph s0 →
  foldl (λ s p, ww_body event p s) s l
  = record_all ((λ p, (commutes_ww p, race_of "w/w" p))
                  <$> filter (λ p, passes event s0 p = true) l) s.
Proof.
  revert s. induction l as [|p l IH]; intros s HG; [done|].
  simpl foldl. rewrite (ww_body_cases event s0) by done.
  rewrite filter_cons. destruct (passes event s0 p).
  - rewrite decide_True by done. rewrite IH; [done|].
    by rewrite record_race_closed.
  - rewrite decide_False by done. by rewrite IH.
Qed.

Lemma detect_ww_races_closed event s :
  detect_ww_races event s
  = record_all ((λ p, (commutes_ww p, race_of "w/w" p))
                  <$> ww_survivors event s) s.
Proof. unfold RaceDetector.detect_ww_races. by apply ww_loop_closed. Qed.

Lemma rw_body_cases event s0 s p :
  graph s = graph s0 → filter_rw s = filter_rw s0 →
  rw_body event p s
  = if passes event s0 p
    then if rejected s0 p
         then set_total_filtered (total_filtered s + 1) s
         else record_race (commutes_rw p) (race_of "r/w" p) s
    else s.
Proof.
  intros HG HF. destruct p as [[i io] [k ko]]. unfold passes, rejected. simpl.
  by rewrite (candidate_graph event s s0), HF,
    (has_common_ancestor_graph s s0).
Qed.

Lemma rw_loop_closed event s0 l s :
  graph s = graph s0 → filter_rw s = filter_rw s0 →
  foldl (λ s p, rw_body event p s) s l
  = set_total_filtered
      (total_filtered s
       + Z.of_nat (length (filter (λ p, passes event s0 p && rejected s0 p
                                        = true) l)))
      (record_all ((λ p, (commutes_rw p, race_of "r/w" p))
                     <$> filter (λ p, passes event s0 p
                                      && negb (rejected s0 p) = true) l) s).
Proof.
  revert s. induction l as [|p l IH]; intros s HG HF.
  - simpl. destruct s; simpl. by rewrite Z.add_0_r.
  - simpl foldl. rewrite (rw_body_cases event s0) by done.
    rewrite !filter_cons.
    destruct (passes event s0 p); [destruct (rejected s0 p)|];
      cbn [andb negb].
    + rewrite decide_True, decide_False by done.
      rewrite IH by (by destruct s). cbn [length].
      rewrite record_all_total_filtered, !record_all_closed.
      destruct s; unfold set_total_filtered; simpl. f_equal. lia.
    + rewrite decide_False, decide_True by done.
      rewrite IH by (by rewrite record_race_closed).
      by rewrite fmap_cons, record_all_cons, record_race_total_filtered.
    + rewrite !decide_False by done. by rewrite IH.
Qed.

Lemma detect_rw_races_closed event s :
  detect_rw_races event s
  = set_total_filtered
      (total_filtered s + Z.of_nat (length (rw_filtered event s)))
      (record_all ((λ p, (commutes_rw p, race_of "r/w" p))
                     <$> rw_survivors event s) s).
Proof. unfold RaceDetector.detect_rw_races. by apply rw_loop_closed. Qed.

End Checker.

(** *** Closed form of [read_ops] *)

Lemma extend_nil s : extend true [] [] s = Done s.
Proof. destruct s; unfold extend; simpl. by rewrite !app_nil_r. Qed.

Lemma extend_extend r1 w1 ok r2 w2 s :
  match extend true r1 w1 s with
  | Done s' => extend ok r2 w2 s'
  | AssertionError s' => AssertionError s'
  end = extend ok (r1 ++ r2) (w1 ++ w2) s.
Proof. destruct s; unfold extend; simpl. by rewrite !app_assoc. Qed.

Lemma for_each_extend {A} (QR QW : Event * Operation → Prop)
    (body : A → t → outcome) (l : list A) :
  (∀ x, x ∈ l → ∃ ok r w,
      (∀ s, body x s = extend ok r w s) ∧ Forall QR r ∧ Forall QW w) →
  ∃ ok r w,
    (∀ s, for_each body l s = extend ok r w s) ∧ Forall QR r ∧ Forall QW w.
Proof.
  induction l as [|x l IH]; intros Hbody.
  - exists true, [], []. split; [|by split]. intros s. by rewrite extend_nil.
  - destruct (Hbody x) as (ok1 & r1 & w1 & H1 & HR1 & HW1); [by left|].
    destruct IH as (ok2 & r2 & w2 & H2 & HR2 & HW2).
    { intros y Hy. apply Hbody. by right. }
    destruct ok1.
    + exists ok2, (r1 ++ r2), (w1 ++ w2). split; [|by rewrite !Forall_app].
      intros s. simpl. rewrite H1, <- extend_extend.
      destruct (extend true r1 w1 s) eqn:E; [apply H2|].
      unfold extend in E. discriminate.
    + exists false, r1, w1. split; [|done]. intros s. simpl. by rewrite H1.
Qed.

Lemma read_ops_body_extend G i k ops :
  i ∈ events G → operations i = Some ops → k ∈ ops →
  ∃ ok r w,
    (∀ s, read_ops_body i k s = extend ok r w s)
    ∧ Forall (op_of G "TraceSwitchFlowTableRead") r
    ∧ Forall (op_of G "TraceSwitchFlowTableWrite") w.
Proof.
  intros Hi Hops Hk.
  assert (∀ ty, type k = ty → op_of G ty (i, k)) as Hop.
  { intros ty Hty. split; [done|]. split; [done|]. by exists ops. }
  assert (∀ s, AssertionError s = extend false [] [] s) as Hfail.
  { intros s. destruct s; unfold extend; simpl. by rewrite !app_nil_r. }
  unfold read_ops_body.
  destruct (String.eqb_spec (type k) "TraceSwitchFlowTableWrite") as [Hw|_].
  { destruct (flow_table k), (flow_mod k); simpl;
      try (exists false, [], []; split; [exact Hfail | by split]).
    exists true, [], [(i, k)]. split; [|split; [done|]].
    - intros st. destruct st; unfold extend; simpl. by rewrite app_nil_r.
    - constructor; [by apply Hop | done]. }
  destruct (String.eqb_spec (type k) "TraceSwitchFlowTableRead") as [Hr|_].
  { destruct (flow_table k), (flow_mod k), (packet i), (in_port i); simpl;
      try (exists false, [], []; split; [exact Hfail | by split]).
    exists true, [(i, k)], []. split; [|split; [|done]].
    - intros st. destruct st; unfold extend; simpl. by rewrite app_nil_r.
    - constructor; [by apply Hop | done]. }
  exists true, [], []. split; [|by split].
  intros s. by rewrite extend_nil.
Qed.

Lemma read_ops_closed G :
  ∃ ok r w,
    (∀ s, graph s = G →
          read_ops s
          = ended ok (set_write_operations w (set_read_operations r s)))
    ∧ Forall (op_of G "TraceSwitchFlowTableRead") r
    ∧ Forall (op_of G "TraceSwitchFlowTableWrite") w.
Proof.
  destruct (for_each_extend (op_of G "TraceSwitchFlowTableRead")
              (op_of G "TraceSwitchFlowTableWrite")
              (λ i s, match operations i with
                      | Some ops => for_each (read_ops_body i) ops s
                      | None => Done s
                      end) (events G))
    as (ok & r & w & H & HR & HW).
  { intros i Hi. destruct (operations i) as [ops|] eqn:Hops.
    - apply for_each_extend. intros k Hk.
      by apply (read_ops_body_extend G i k ops).
    - exists true, [], []. split; [|by split].
      intros s. by rewrite extend_nil. }
  exists ok, r, w. split; [|done].
  intros s <-. unfold read_ops. destruct s; simpl in *. by rewrite H.
Qed.

(** *** The comprehensions depend on the graph and the collected operations *)

Lemma passes_ext event s s' p :
  graph s = graph s' → passes event s p = passes event s' p.
Proof. intros H. unfold passes. by apply candidate_graph. Qed.

Lemma rejected_ext s s' p :
  graph s = graph s' → filter_rw s = filter_rw s' →
  rejected s p = rejected s' p.
Proof.
  intros HG HF. unfold rejected.
  by rewrite HF, (has_common_ancestor_graph s s').
Qed.

Lemma ww_survivors_ext event s s' :
  graph s = graph s' → write_operations s = write_operations s' →
  ww_survivors event s = ww_survivors event s'.
Proof.
  intros HG HW. unfold ww_survivors. rewrite HW.
  apply list_filter_iff. intros p. by rewrite (passes_ext event s s').
Qed.

Lemma rw_pairs_ext s s' :
  read_operations s = read_operations s' →
  write_operations s = write_operations s' →
  rw_pairs s = rw_pairs s'.
Proof. unfold rw_pairs. by intros -> ->. Qed.

Lemma rw_survivors_ext event s s' :
  graph s = graph s' → filter_rw s = filter_rw s' →
  read_operations s = read_operations s' →
  write_operations s = write_operations s' →
  rw_survivors event s = rw_survivors event s'.
Proof.
  intros HG HF HR HW. unfold rw_survivors. rewrite (rw_pairs_ext s s') by done.
  apply list_filter_iff. intros p.
  by rewrite (passes_ext event s s'), (rejected_ext s s').
Qed.

Lemma rw_filtered_ext event s s' :
  graph s = graph s' → filter_rw s = filter_rw s' →
  read_operations s = read_operations s' →
  write_operations s = write_operations s' →
  rw_filtered event s = rw_filtered event s'.
Proof.
  intros HG HF HR HW. unfold rw_filtered. rewrite (rw_pairs_ext s s') by done.
  apply list_filter_iff. intros p.
  by rewrite (passes_ext event s s'), (rejected_ext s s').
Qed.

(** *** Closed form of [detect_races] *)

Lemma reset_closed s :
  reset s
  = mkDetector (graph s) (read_operations s) (write_operations s) [] [] [] []
      (total_operations s) (total_harmful s) (total_commute s) 0
      (total_races s) (filter_rw s).
Proof. by destruct s. Qed.

Lemma set_totals_closed s :
  set_totals s
  = mkDetector (graph s) (read_operations s) (write_operations s)
      (races_harmful s) (races_commute s) (racing_events s)
      (racing_events_harmful s)
      (Z.of_nat (length (write_operations s))
       + Z.of_nat (length (read_operations s)))
      (Z.of_nat (length (races_harmful s)))
      (Z.of_nat (length (races_commute s)))
      (total_filtered s)
      (Z.of_nat (length (races_harmful s))
       + Z.of_nat (length (races_commute s)))
      (filter_rw s).
Proof. by destruct s. Qed.

Section Runs.

Variable check_commutativity_ww
  : Event → Operation → Event → Operation → bool.
Variable check_commutativity_rw
  : Event → Operation → Event → Operation → bool.

#[local] Abbreviation detect_races :=
  (detect_races check_commutativity_ww check_commutativity_rw).
#[local] Abbreviation verdicts :=
  (verdicts check_commutativity_ww check_commutativity_rw).
#[local] Abbreviation run_result :=
  (run_result check_commutativity_ww check_commutativity_rw).

Lemma detect_races_phases event s :
  detect_races event s
  = match read_ops s with
    | AssertionError s => AssertionError s
    | Done s =>
        Done (set_totals
                (RaceDetector.detect_rw_races check_commutativity_rw event
                   (RaceDetector.detect_ww_races check_commutativity_ww event
                      (reset s))))
    end.
Proof. reflexivity. Qed.

Lemma detect_races_closed event s ok r w :
  read_ops s = ended ok (set_write_operations w (set_read_operations r s)) →
  detect_races event s
  = if ok then Done (run_result event (graph s) (filter_rw s) r w)
    else AssertionError (set_write_operations w (set_read_operations r s)).
Proof.
  intros Hread. rewrite detect_races_phases, Hread.
  destruct ok; [|done]. unfold ended. f_equal.
  set (base := mkDetector (graph s) r w [] [] [] [] 0 0 0 0 0 (filter_rw s)).
  rewrite reset_closed.
  cbn [set_write_operations set_read_operations graph read_operations
       write_operations total_operations total_harmful total_commute
       total_races filter_rw].
  rewrite detect_ww_races_closed.
  rewrite (ww_survivors_ext event _ base) by reflexivity.
  rewrite detect_rw_races_closed.
  rewrite (rw_survivors_ext event _ base), (rw_filtered_ext event _ base)
    by (rewrite record_all_closed; reflexivity).
  rewrite <- record_all_app, !record_all_closed.
  unfold set_total_filtered.
  cbn [graph read_operations write_operations races_harmful races_commute
       racing_events racing_events_harmful total_operations total_harmful
       total_commute total_filtered total_races filter_rw].
  rewrite set_totals_closed.
  cbn [graph read_operations write_operations races_harmful races_commute
       racing_events racing_events_harmful total_operations total_harmful
       total_commute total_filtered total_races filter_rw app].
  unfold RaceDetector.run_result. fold base.
  by rewrite !length_fmap.
Qed.

Lemma read_ops_cases s :
  ∃ ok r w,
    (∀ s', graph s' = graph s →
           read_ops s'
           = ended ok (set_write_operations w (set_read_operations r s')))
    ∧ Forall (op_of (graph s) "TraceSwitchFlowTableRead") r
    ∧ Forall (op_of (graph s) "TraceSwitchFlowTableWrite") w.
Proof. apply read_ops_closed. Qed.

Lemma detect_races_Done event s s' :
  detect_races event s = Done s' →
  ∃ r w,
    s' = run_result event (graph s) (filter_rw s) r w
    ∧ read_ops s = Done (set_write_operations w (set_read_operations r s))
    ∧ Forall (op_of (graph s) "TraceSwitchFlowTableRead") r
    ∧ Forall (op_of (graph s) "TraceSwitchFlowTableWrite") w.
Proof.
  destruct (read_ops_cases s) as (ok & r & w & Hread & HR & HW).
  rewrite (detect_races_closed event s ok r w) by by apply Hread.
  destruct ok; [|done]. intros [= <-]. exists r, w.
  split; [done|]. split; [by apply Hread | done].
Qed.

Lemma detect_races_AssertionError event s s' :
  detect_races event s = AssertionError s' →
  ∃ r w, s' = set_write_operations w (set_read_operations r s)
         ∧ read_ops s = AssertionError s'.
Proof.
  destruct (read_ops_cases s) as (ok & r & w & Hread & _).
  rewrite (detect_races_closed event s ok r w) by by apply Hread.
  destruct ok; [done|]. intros [= <-]. exists r, w.
  split; [done | by apply Hread].
Qed.

(** The fields of the detector a run leaves, in terms of that detector. *)
Lemma run_result_fields event G f r w :
  let s' := run_result event G f r w in
  graph s' = G ∧ filter_rw s' = f
  ∧ read_operations s' = r ∧ write_operations s' = w
  ∧ races_harmful s' = (harmful (verdicts event s')).*2
  ∧ races_commute s' = (commuting (verdicts event s')).*2
  ∧ racing_events s' = add_all (events_of (verdicts event s')) []
  ∧ racing_events_harmful s'
    = add_all (events_of (harmful (verdicts event s'))) []
  ∧ total_filtered s' = Z.of_nat (length (rw_filtered event s')).
Proof.
  intros s'.
  set (base := mkDetector G r w [] [] [] [] 0 0 0 0 0 f).
  assert (verdicts event s' = verdicts event base) as HV.
  { unfold RaceDetector.verdicts.
    by rewrite (ww_survivors_ext event s' base),
      (rw_survivors_ext event s' base). }
  rewrite HV, (rw_filtered_ext event s' base) by done.
  by repeat split.
Qed.

(** Where the verdicts come from. *)
Lemma elem_of_combinations {A} (l : list A) p :
  p ∈ combinations l → p.1 ∈ l ∧ p.2 ∈ l.
Proof.
  induction l as [|x l IH]; simpl; [by rewrite elem_of_nil|].
  rewrite elem_of_app, list_elem_of_fmap.
  intros [(y & -> & Hy)|Hp]; simpl.
  - split; [by left | by right].
  - destruct (IH Hp). split; by right.
Qed.

Lemma elem_of_rw_pairs s p :
  p ∈ rw_pairs s ↔ p.1 ∈ read_operations s ∧ p.2 ∈ write_operations s.
Proof.
  unfold rw_pairs. rewrite list_elem_of_bind. split.
  - intros (x & Hp & Hx). apply list_elem_of_fmap in Hp as (y & -> & Hy).
    done.
  - intros [H1 H2]. exists p.1. split; [|done].
    apply list_elem_of_fmap. exists p.2. split; [by destruct p | done].
Qed.

Lemma elem_of_verdicts event s x :
  x ∈ verdicts event s ↔
  (∃ p, x = (commutes_ww check_commutativity_ww p, race_of "w/w" p)
        ∧ passes event s p = true
        ∧ p ∈ combinations (write_operations s))
  ∨ (∃ p, x = (commutes_rw check_commutativity_rw p, race_of "r/w" p)
          ∧ passes event s p = true ∧ rejected s p = false
          ∧ p ∈ rw_pairs s).
Proof.
  unfold RaceDetector.verdicts, ww_survivors, rw_survivors.
  rewrite elem_of_app, !list_elem_of_fmap. split.
  - intros [(p & -> & Hp)|(p & -> & Hp)];
      apply list_elem_of_filter in Hp as [Hp Hin]; [left|right]; exists p.
    + done.
    + apply andb_true_iff in Hp as [H1 H2]. by apply negb_true_iff in H2.
  - intros [(p & -> & Hp & Hin)|(p & -> & Hp & Hr & Hin)]; [left|right];
      exists p; (split; [done|]); apply list_elem_of_filter.
    + done.
    + by rewrite Hp, Hr.
Qed.

Lemma passes_iff event s p :
  passes event s p = true
  ↔ p.1.1 ≠ p.2.1
    ∧ involves event p.1.1 p.2.1 = true
    ∧ dpid p.1.1 = dpid p.2.1
    ∧ is_ordered s p.1.1 p.2.1 = false.
Proof.
  unfold passes, candidate.
  rewrite !andb_true_iff, !bool_decide_eq_true, negb_true_iff. tauto.
Qed.

Lemma elem_of_races_harmful event G f r w x :
  x ∈ races_harmful (run_result event G f r w)
  ↔ (false, x) ∈ verdicts event (run_result event G f r w).
Proof.
  destruct (run_result_fields event G f r w) as (_&_&_&_&->&_).
  unfold harmful. rewrite list_elem_of_fmap.
  setoid_rewrite list_elem_of_filter. split.
  - intros ([c y] & -> & Hc & Hin). simpl in *. by subst.
  - intros Hin. by exists (false, x).
Qed.

Lemma elem_of_races_commute event G f r w x :
  x ∈ races_commute (run_result event G f r w)
  ↔ (true, x) ∈ verdicts event (run_result event G f r w).
Proof.
  destruct (run_result_fields event G f r w) as (_&_&_&_&_&->&_).
  unfold commuting. rewrite list_elem_of_fmap.
  setoid_rewrite list_elem_of_filter. split.
  - intros ([c y] & -> & Hc & Hin). simpl in *. by subst.
  - intros Hin. by exists (true, x).
Qed.

Lemma elem_of_events_of l e :
  e ∈ events_of l ↔ ∃ x, x ∈ l ∧ (e = i_event x.2 ∨ e = k_event x.2).
Proof.
  unfold events_of. rewrite list_elem_of_bind. split.
  - intros (x & He & Hx). exists x. split; [done|].
    apply elem_of_cons in He as [->|He]; [by left|].
    apply list_elem_of_singleton in He as ->. by right.
  - intros (x & Hx & He). exists x. split; [|done].
    destruct He as [->| ->]; [by left | right; by left].
Qed.

(** Every verdict of a run is about a pair of collected operations that
    passed the guard. *)
Lemma verdict_origin event s s' c x :
  detect_races event s = Done s' →
  (c, x) ∈ verdicts event s' →
  ∃ p,
    passes event s' p = true
    ∧ op_of (graph s') "TraceSwitchFlowTableWrite" p.2
    ∧ ((x = race_of "w/w" p
        ∧ c = commutes_ww check_commutativity_ww p
        ∧ op_of (graph s') "TraceSwitchFlowTableWrite" p.1
        ∧ p ∈ combinations (write_operations s'))
       ∨ (x = race_of "r/w" p
          ∧ c = commutes_rw check_commutativity_rw p
          ∧ op_of (graph s') "TraceSwitchFlowTableRead" p.1
          ∧ rejected s' p = false
          ∧ p ∈ rw_pairs s')).
Proof.
  intros (r & w & -> & _ & HR & HW)%detect_races_Done Hin.
  destruct (run_result_fields event (graph s) (filter_rw s) r w)
    as (HG & _ & Hr & Hw & _).
  rewrite Forall_forall in HR, HW.
  apply elem_of_verdicts in Hin
    as [(p & [= -> ->] & Hp & Hin)|(p & [= -> ->] & Hp & Hrej & Hin)];
    exists p; (split; [done|]); rewrite HG.
  - apply elem_of_combinations in Hin as Hin'. rewrite Hw in Hin'.
    destruct Hin'. split; [by apply HW|]. left.
    split; [done|]. split; [done|]. split; [by apply HW | done].
  - apply elem_of_rw_pairs in Hin as Hin'. rewrite Hr, Hw in Hin'.
    destruct Hin'. split; [by apply HW|]. right.
    split; [done|]. split; [done|]. split; [by apply HR | done].
Qed.

Lemma races_verdicts event s s' x :
  detect_races event s = Done s' →
  (x ∈ races_harmful s' ↔ (false, x) ∈ verdicts event s')
  ∧ (x ∈ races_commute s' ↔ (true, x) ∈ verdicts event s').
Proof.
  intros (r & w & -> & _)%detect_races_Done.
  split; [apply elem_of_races_harmful | apply elem_of_races_commute].
Qed.

(** C1: every race a run of [detect_races] records, harmful or commuting,
    w/w or r/w, is between operations of two distinct handle events of the
    graph with the same dpid that are not ordered by happens-before:
    [is_ordered] is false, that is, the graph has no directed path between
    their eids in either direction. *)
Theorem recorded_races_are_unordered event s s' r :
  detect_races event s = Done s' →
  r ∈ races_harmful s' ++ races_commute s' →
  (rtype r = "w/w" ∨ rtype r = "r/w")
  ∧ i_event r ∈ events (graph s') ∧ k_event r ∈ events (graph s')
  ∧ (∃ ops, operations (i_event r) = Some ops ∧ i_op r ∈ ops)
  ∧ (∃ ops, operations (k_event r) = Some ops ∧ k_op r ∈ ops)
  ∧ i_event r ≠ k_event r
  ∧ dpid (i_event r) = dpid (k_event r)
  ∧ is_ordered s' (i_event r) (k_event r) = false
  ∧ ¬ path (g (graph s')) (eid (i_event r)) (eid (k_event r))
  ∧ ¬ path (g (graph s')) (eid (k_event r)) (eid (i_event r)).
Proof.
  intros Hrun Hin.
  assert (∃ c, (c, r) ∈ verdicts event s') as [c Hc].
  { destruct (races_verdicts event s s' r Hrun) as [Hh Hcm].
    apply elem_of_app in Hin as [Hin|Hin];
      [exists false; by apply Hh | exists true; by apply Hcm]. }
  destruct (verdict_origin event s s' c r Hrun Hc)
    as (p & Hp & (Hk1 & _ & Hk2) & Horigin).
  apply passes_iff in Hp as (Hne & _ & Hdpid & Hord).
  apply is_ordered_false in Hord as Hpaths.
  assert (rtype r = "w/w" ∨ rtype r = "r/w") as Hty.
  { destruct Horigin as [(-> & _)|(-> & _)]; [by left | by right]. }
  assert (i_event r = p.1.1 ∧ i_op r = p.1.2
          ∧ k_event r = p.2.1 ∧ k_op r = p.2.2) as (-> & -> & -> & ->).
  { by destruct Horigin as [(-> & _)|(-> & _)]. }
  assert (p.1.1 ∈ events (graph s')
          ∧ ∃ ops, operations p.1.1 = Some ops ∧ p.1.2 ∈ ops) as [Hi1 Hi2].
  { by destruct Horigin as [(_ & _ & (? & _ & ?) & _)|(_ & _ & (? & _ & ?) & _)]. }
  tauto.
Qed.

Lemma races_with_verdict {A} (f : A → bool) (k : A → Race) (b : bool)
    (l : list A) :
  (filter (λ x : bool * Race, x.1 = b) ((λ p, (f p, k p)) <$> l)).*2
  = k <$> filter (λ p, f p = b) l.
Proof.
  induction l as [|p l IH]; [done|].
  rewrite fmap_cons, !filter_cons. simpl.
  destruct (decide (f p = b)); [|exact IH].
  rewrite !fmap_cons. simpl. f_equal. exact IH.
Qed.

(** C2: the surviving pairs are recorded under the oracle's verdict:
    [races_commute] holds exactly the survivors the oracle says commute and
    [races_harmful] exactly the others, in the order the loops meet them; no
    pair of operations is in both lists; the events of a harmful race are in
    [racing_events_harmful] and those of any race in [racing_events]. *)
Theorem races_classified_by_oracle event s s' :
  detect_races event s = Done s' →
  races_commute s'
  = (race_of "w/w"
       <$> filter (λ p, commutes_ww check_commutativity_ww p = true)
             (ww_survivors event s'))
    ++ (race_of "r/w"
          <$> filter (λ p, commutes_rw check_commutativity_rw p = true)
                (rw_survivors event s'))
  ∧ races_harmful s'
    = (race_of "w/w"
         <$> filter (λ p, commutes_ww check_commutativity_ww p = false)
               (ww_survivors event s'))
      ++ (race_of "r/w"
            <$> filter (λ p, commutes_rw check_commutativity_rw p = false)
                  (rw_survivors event s'))
  ∧ (∀ r r', r ∈ races_commute s' → r' ∈ races_harmful s' →
             ¬ (i_event r = i_event r' ∧ i_op r = i_op r'
                ∧ k_event r = k_event r' ∧ k_op r = k_op r'))
  ∧ (∀ r, r ∈ races_harmful s' →
          i_event r ∈ racing_events_harmful s'
          ∧ k_event r ∈ racing_events_harmful s')
  ∧ (∀ r, r ∈ races_harmful s' ++ races_commute s' →
          i_event r ∈ racing_events s' ∧ k_event r ∈ racing_events s').
Proof.
  intros Hrun.
  pose proof (races_verdicts event s s') as Hrv.
  destruct (detect_races_Done event s s' Hrun) as (r0 & w0 & Hs' & _).
  destruct (run_result_fields event (graph s) (filter_rw s) r0 w0)
    as (_ & _ & _ & _ & Hh & Hc & He & Heh & _).
  rewrite <- Hs' in Hh, Hc, He, Heh.
  split; [|split]; [| |split; [|split]].
  - rewrite Hc. unfold commuting, RaceDetector.verdicts.
    rewrite filter_app, fmap_app.
    by rewrite (races_with_verdict (commutes_ww check_commutativity_ww)),
      (races_with_verdict (commutes_rw check_commutativity_rw)).
  - rewrite Hh. unfold harmful, RaceDetector.verdicts.
    rewrite filter_app, fmap_app.
    by rewrite (races_with_verdict (commutes_ww check_commutativity_ww)),
      (races_with_verdict (commutes_rw check_commutativity_rw)).
  - intros r r' Hr Hr' (Hi & Hio & Hk & Hko).
    apply Hrv in Hr, Hr'; [|done..].
    destruct (verdict_origin event s s' _ _ Hrun Hr) as (p & _ & _ & Hp).
    destruct (verdict_origin event s s' _ _ Hrun Hr') as (p' & _ & _ & Hp').
    assert (p = p') as <-.
    { destruct p as [[] []], p' as [[] []].
      destruct Hp as [(-> & _)|(-> & _)], Hp' as [(-> & _)|(-> & _)];
        simpl in *; congruence. }
    destruct Hp as [(_ & Hv & (_ & Hty & _) & _)|(_ & Hv & (_ & Hty & _) & _)],
      Hp' as [(_ & Hv' & (_ & Hty' & _) & _)|(_ & Hv' & (_ & Hty' & _) & _)];
      congruence.
  - intros r Hr. apply Hrv in Hr; [|done]. rewrite Heh.
    rewrite !elem_of_add_all, !elem_of_events_of.
    split; left; exists (false, r);
      (split; [by apply list_elem_of_filter | auto]).
  - intros r Hr. rewrite He. rewrite !elem_of_add_all, !elem_of_events_of.
    apply elem_of_app in Hr as [Hr|Hr]; apply Hrv in Hr; [|done| |done].
    + split; left; exists (false, r); auto.
    + split; left; exists (true, r); auto.
Qed.

(** C10: after a run, every harmful racing event is a racing event, and the
    harmful racing events are exactly the events of the harmful races.  A run
    that stops at a failing assertion of [read_ops] leaves both sets and the
    list as they were. *)
Theorem harmful_events_are_events_of_harmful_races event s :
  (∀ s', detect_races event s = Done s' → harmful_events_consistent s')
  ∧ (harmful_events_consistent s →
     harmful_events_consistent (state_of (detect_races event s))).
Proof.
  assert (∀ s', detect_races event s = Done s' → harmful_events_consistent s')
    as HDone.
  { intros s' Hrun.
    pose proof (races_verdicts event s s') as Hrv.
    destruct (detect_races_Done event s s' Hrun) as (r0 & w0 & Hs' & _).
    destruct (run_result_fields event (graph s) (filter_rw s) r0 w0)
      as (_ & _ & _ & _ & _ & _ & He & Heh & _).
    rewrite <- Hs' in He, Heh. unfold harmful_events_consistent.
    rewrite He, Heh. setoid_rewrite elem_of_add_all.
    setoid_rewrite elem_of_events_of. unfold harmful.
    setoid_rewrite list_elem_of_filter. split.
    - intros e [(x & [_ Hx] & Hex)|Hnil]; [|by apply elem_of_nil in Hnil].
      left. by exists x.
    - intros e. split.
      + intros [([c x] & [Hc Hx] & Hex)|Hnil];
          [|by apply elem_of_nil in Hnil].
        simpl in *. subst c. exists x. split; [|done]. by apply Hrv.
      + intros (x & Hx & Hex). left. exists (false, x).
        split; [|done]. split; [done|]. by apply Hrv. }
  split; [done|]. intros Hs.
  destruct (detect_races event s) as [s'|s'] eqn:Hrun; [by apply HDone|].
  apply detect_races_AssertionError in Hrun as (r & w & -> & _).
  by destruct s.
Qed.

(** C7: a second run with the same event argument on the same graph leaves
    the detector as the first run left it, and ends the same way. *)
Theorem detect_races_idempotent event s :
  detect_races event (state_of (detect_races event s))
  = detect_races event s.
Proof.
  destruct (read_ops_cases s) as (ok & r & w & Hread & _).
  rewrite (detect_races_closed event s ok r w) by by apply Hread.
  destruct ok; simpl state_of.
  - set (s' := run_result event (graph s) (filter_rw s) r w).
    rewrite (detect_races_closed event s' true r w) by by apply Hread.
    reflexivity.
  - set (s' := set_write_operations w (set_read_operations r s)).
    rewrite (detect_races_closed event s' false r w)
      by (apply Hread; by destruct s).
    by destruct s.
Qed.

(** C6 (amended): the common-ancestor filter acts on r/w pairs only, and only
    when [filter_rw] is set.  With [filter_rw] set, an r/w pair the run
    considers (any pair without an event argument, a pair containing the
    event otherwise) whose events have the same dpid, are unordered and have
    no common ancestor makes the loop body add one to [total_filtered] and
    do nothing else; it is counted in [total_filtered] and is in neither list
    of races.  Without [filter_rw] nothing is filtered.  The w/w loop never
    touches [total_filtered], and records every pair that passes its guard. *)
Theorem common_ancestor_filter_on_considered_pairs event s s' :
  detect_races event s = Done s' →
  total_filtered s' = Z.of_nat (length (rw_filtered event s'))
  ∧ (filter_rw s = false → total_filtered s' = 0)
  ∧ (∀ p,
       p ∈ rw_pairs s' →
       filter_rw s = true →
       involves event p.1.1 p.2.1 = true →
       dpid p.1.1 = dpid p.2.1 →
       is_ordered s' p.1.1 p.2.1 = false →
       has_common_ancestor s' p.1.1 p.2.1 = false →
       p ∈ rw_filtered event s'
       ∧ ¬ (race_of "r/w" p ∈ races_harmful s')
       ∧ ¬ (race_of "r/w" p ∈ races_commute s')
       ∧ ∀ st, graph st = graph s' → filter_rw st = true →
               rw_body check_commutativity_rw event p st
               = set_total_filtered (total_filtered st + 1) st)
  ∧ (∀ p,
       p ∈ combinations (write_operations s') →
       passes event s' p = true →
       race_of "w/w" p ∈ races_harmful s' ++ races_commute s')
  ∧ (∀ st,
       total_filtered
         (RaceDetector.detect_ww_races check_commutativity_ww event st)
       = total_filtered st).
Proof.
  intros Hrun.
  pose proof (races_verdicts event s s') as Hrv.
  destruct (detect_races_Done event s s' Hrun) as (r0 & w0 & Hs' & _).
  destruct (run_result_fields event (graph s) (filter_rw s) r0 w0)
    as (_ & Hf & _ & _ & _ & _ & _ & _ & Htf).
  rewrite <- Hs' in Hf, Htf.
  split; [done|]. split; [|split; [|split]].
  - intros Hoff. rewrite Htf. unfold rw_filtered.
    assert (∀ l, filter (λ p, passes event s' p && rejected s' p = true) l
                 = []) as ->; [|done].
    intros l. induction l as [|p l IH]; [done|].
    rewrite filter_cons, IH. unfold rejected. rewrite Hf, Hoff. simpl.
    by rewrite andb_false_r, decide_False.
  - intros p Hin Hon Hinv Hdpid Hord Hanc.
    assert (passes event s' p = true) as Hpass.
    { apply passes_iff. split; [|done]. intros Heq. rewrite Heq in Hord.
      assert (is_ordered s' p.2.1 p.2.1 = true); [|congruence].
      apply is_ordered_spec. left. apply rtc_refl. }
    assert (rejected s' p = true) as Hrej.
    { unfold rejected. by rewrite Hf, Hon, Hanc. }
    split; [|split; [|split]].
    + unfold rw_filtered. apply list_elem_of_filter. by rewrite Hpass, Hrej.
    + intros Hr. apply Hrv in Hr; [|done].
      destruct (verdict_origin event s s' _ _ Hrun Hr) as (q & _ & _ & Hq).
      destruct Hq as [([=] & _)|(Heq & _ & _ & Hq & _)].
      assert (p = q) as <-; [|congruence].
      destruct p as [[] []], q as [[] []]. unfold race_of in Heq.
      simpl in Heq. congruence.
    + intros Hr. apply Hrv in Hr; [|done].
      destruct (verdict_origin event s s' _ _ Hrun Hr) as (q & _ & _ & Hq).
      destruct Hq as [([=] & _)|(Heq & _ & _ & Hq & _)].
      assert (p = q) as <-; [|congruence].
      destruct p as [[] []], q as [[] []]. unfold race_of in Heq.
      simpl in Heq. congruence.
    + intros st HG HF.
      rewrite (rw_body_cases check_commutativity_rw event s' st) by congruence.
      by rewrite Hpass, Hrej.
  - intros p Hin Hpass.
    destruct (commutes_ww check_commutativity_ww p) eqn:Hc.
    + apply elem_of_app. right. apply Hrv; [done|].
      apply elem_of_verdicts. left. exists p. by rewrite Hc.
    + apply elem_of_app. left. apply Hrv; [done|].
      apply elem_of_verdicts. left. exists p. by rewrite Hc.
  - intros st. by rewrite detect_ww_races_closed, record_all_closed.
Qed.

End Runs.

(** *** The sample graph *)

Section Sample.
Import DetectorSample.

Ltac decide_by_computation :=
  apply (bool_decide_unpack _); vm_compute; exact I.

Lemma sample_run : run None true = Done after_run.
Proof. by vm_compute. Qed.

Lemma sample_run_for_e4 : run (Some e4) true = Done after_run_for_e4.
Proof. by vm_compute. Qed.

Lemma sample_failed_run :
  RaceDetector.detect_races same_flow_mod never None
    (set_graph broken_graph after_run)
  = AssertionError after_failed_run.
Proof. by vm_compute. Qed.

(** On the sample graph the read of event 3 races with the write of event 5:
    same switch, and no path between the two. *)
Lemma recorded_races_are_unordered_witness :
  let r := mkRace "r/w" e3 (read 13 "fm1") e5 (write 15 "fm2") in
  run None true = Done after_run
  ∧ r ∈ races_harmful after_run ++ races_commute after_run
  ∧ i_event r ≠ k_event r
  ∧ dpid (i_event r) = dpid (k_event r)
  ∧ is_ordered after_run (i_event r) (k_event r) = false
  ∧ ¬ path (g (graph after_run)) 3 5
  ∧ ¬ path (g (graph after_run)) 5 3.
Proof.
  intros r.
  assert (r ∈ races_harmful after_run ++ races_commute after_run) as Hin
    by decide_by_computation.
  split; [exact sample_run|]. split; [exact Hin|].
  destruct (recorded_races_are_unordered same_flow_mod never None
              (init hb_graph true) after_run r sample_run Hin)
    as (_ & _ & _ & _ & _ & Hne & Hdpid & Hord & Hp1 & Hp2).
  repeat split; assumption.
Defined.

(** On the sample graph the oracle calls one pair commuting and three
    harmful. *)
Lemma races_classified_by_oracle_witness :
  run None true = Done after_run
  ∧ races_commute after_run
    = (race_of "w/w"
         <$> filter (λ p, commutes_ww same_flow_mod p = true)
               (ww_survivors None after_run))
      ++ (race_of "r/w"
            <$> filter (λ p, commutes_rw never p = true)
                  (rw_survivors None after_run))
  ∧ length (races_commute after_run) = 1%nat
  ∧ length (races_harmful after_run) = 3%nat
  ∧ (∀ r, r ∈ races_harmful after_run →
          i_event r ∈ racing_events_harmful after_run
          ∧ k_event r ∈ racing_events_harmful after_run).
Proof.
  split; [exact sample_run|].
  destruct (races_classified_by_oracle same_flow_mod never None
              (init hb_graph true) after_run sample_run)
    as (Hc & _ & _ & Hh & _).
  split; [exact Hc|]. split; [reflexivity|]. split; [reflexivity|].
  exact Hh.
Defined.

(** With the filter on, the read of event 3 and the write of event 2 have no
    common ancestor: the pair is filtered. *)
Lemma common_ancestor_filter_witness :
  let p := ((e3, read 13 "fm1"), (e2, write 12 "fm2")) in
  run None true = Done after_run
  ∧ p ∈ rw_pairs after_run
  ∧ has_common_ancestor after_run e3 e2 = false
  ∧ p ∈ rw_filtered None after_run
  ∧ total_filtered after_run = 1
  ∧ ¬ (race_of "r/w" p ∈ races_harmful after_run)
  ∧ ¬ (race_of "r/w" p ∈ races_commute after_run).
Proof.
  intros p.
  assert (p ∈ rw_pairs after_run) as Hin by decide_by_computation.
  assert (has_common_ancestor after_run e3 e2 = false) as Hanc
    by (by vm_compute).
  destruct (common_ancestor_filter_on_considered_pairs same_flow_mod never
              None (init hb_graph true) after_run sample_run)
    as (Htf & _ & Hrw & _).
  destruct (Hrw p Hin) as (Hf & Hh & Hc & _);
    [reflexivity | reflexivity | reflexivity | by vm_compute | exact Hanc |].
  split; [exact sample_run|]. split; [exact Hin|]. split; [exact Hanc|].
  split; [exact Hf|]. split; [reflexivity|]. split; [exact Hh | exact Hc].
Defined.

(** C6 as stated fails when an event argument is given: the read of event 3
    and the write of event 2 are on the same switch, unordered and without a
    common ancestor, the filter is on, and a run for event 4 leaves
    [total_filtered] at zero. *)
Lemma pair_without_the_event_is_not_filtered :
  let p := ((e3, read 13 "fm1"), (e2, write 12 "fm2")) in
  run (Some e4) true = Done after_run_for_e4
  ∧ filter_rw after_run_for_e4 = true
  ∧ p ∈ rw_pairs after_run_for_e4
  ∧ dpid e3 = dpid e2
  ∧ is_ordered after_run_for_e4 e3 e2 = false
  ∧ has_common_ancestor after_run_for_e4 e3 e2 = false
  ∧ total_filtered after_run_for_e4 = 0.
Proof.
  intros p. split; [exact sample_run_for_e4|].
  split; [reflexivity|]. split; [decide_by_computation|].
  split; [reflexivity|]. split; [by vm_compute|]. split; [by vm_compute|].
  reflexivity.
Qed.

(** The invariant on the sample graph, and across a run that fails. *)
Lemma harmful_events_are_events_of_harmful_races_witness :
  run None true = Done after_run
  ∧ harmful_events_consistent after_run
  ∧ RaceDetector.detect_races same_flow_mod never None
      (set_graph broken_graph after_run)
    = AssertionError after_failed_run
  ∧ harmful_events_consistent after_failed_run.
Proof.
  pose proof (proj1 (harmful_events_are_events_of_harmful_races same_flow_mod
                       never None (init hb_graph true))
                after_run sample_run) as Hs'.
  split; [exact sample_run|]. split; [exact Hs'|].
  split; [exact sample_failed_run|].
  pose proof (proj2 (harmful_events_are_events_of_harmful_races same_flow_mod
                       never None (set_graph broken_graph after_run)) Hs')
    as Hf.
  rewrite sample_failed_run in Hf. exact Hf.
Defined.

End Sample.

End RaceDetectorFacts.

Module LoggerFacts.
Import Logger.

(** *** Writing to the trace *)

Lemma emit_nil s : emit [] s = s.
Proof. destruct s; unfold emit; simpl. by rewrite !app_nil_r. Qed.

Lemma emit_emit l1 l2 s : emit l2 (emit l1 s) = emit (l1 ++ l2) s.
Proof.
  destruct s; unfold emit, set_output, set_log; simpl.
  by rewrite fmap_app, !app_assoc.
Qed.

Lemma write_closed e s : write_event_to_trace e s = Ok tt (emit [e] s).
Proof. reflexivity. Qed.

Lemma for_each_write l s :
  for_each l write_event_to_trace s = Ok tt (emit l s).
Proof.
  revert s. induction l as [|e l IH]; intros s; simpl.
  - by rewrite emit_nil.
  - unfold bind. rewrite write_closed, IH. by rewrite emit_emit.
Qed.

(** *** Closed forms of the switch helpers *)

Lemma start_switch_event_closed d h s :
  start_switch_event d h s
  = let s1 := set_new_switch_events (delete d (new_switch_events s))
                (emit (default [] (new_switch_events s !! d)) s) in
    match started_switch_event s !! dpid h with
    | None =>
        Ok tt (set_started_switch_event
                 (<[dpid h := h]> (started_switch_event s)) s1)
    | Some _ => Raise AssertionError s1
    end.
Proof.
  unfold start_switch_event, bind, gets. rewrite for_each_write.
  unfold modify. cbn [started_switch_event set_new_switch_events emit
                      set_output set_log].
  destruct (started_switch_event s !! dpid h) eqn:E; reflexivity.
Qed.

Lemma finish_switch_event_closed d s :
  finish_switch_event d s
  = match started_switch_event s !! d with
    | Some h =>
        Ok tt (set_new_switch_events (delete d (new_switch_events s))
                 (emit (default [] (new_switch_events s !! d))
                    (set_started_switch_event
                       (delete d (started_switch_event s))
                       (emit [OfSwitchHandle h] s))))
    | None => Raise AssertionError s
    end.
Proof.
  unfold finish_switch_event, bind, gets, subscript.
  destruct (started_switch_event s !! d) as [h|] eqn:E; [|reflexivity].
  cbn [py_assert bool_decide decide_rel is_Some_dec ret].
  rewrite write_closed. unfold modify. rewrite for_each_write. reflexivity.
Qed.

Lemma add_operation_closed event d s :
  trace_dpid event = Some d →
  add_operation_to_switch_event event s
  = match started_switch_event s !! d with
    | Some h =>
        Ok tt (set_started_switch_event
                 (<[d := append_operation event h]> (started_switch_event s))
                 s)
    | None =>
        Ok tt (set_log
                 (log s ++ [Info "Ignoring switch operation as there is no associated begin event."])
                 s)
    end.
Proof.
  intros Hd. unfold add_operation_to_switch_event, dpid_of, bind. rewrite Hd.
  unfold ret, is_switch_event_started, gets, update_started, bind, gets,
    subscript.
  destruct (started_switch_event s !! d) as [h|] eqn:E; simpl;
    rewrite ?E; reflexivity.
Qed.

Lemma add_successor_closed d event m p s :
  add_successor_to_switch_event d event m p s
  = match started_switch_event s !! d with
    | Some h =>
        Ok tt (set_new_switch_events
                 (<[d := default [] (new_switch_events s !! d) ++ [event]]>
                    (new_switch_events s))
                 (set_started_switch_event
                    (<[d := accrue h (Successor event m p)]>
                       (started_switch_event s)) s))
    | None =>
        Ok tt (emit [event]
                 (set_log
                    (log s ++ [Info "Writing switch event even though there was no associated begin event."])
                    s))
    end.
Proof.
  unfold add_successor_to_switch_event, is_switch_event_started, bind, gets.
  destruct (started_switch_event s !! d) as [h|] eqn:E; [|reflexivity].
  cbn [bool_decide decide_rel is_Some_dec].
  destruct s; simpl in E.
  destruct m as [m|], p as [p|]; unfold update_started, bind, gets, subscript,
    modify, ret, set_new_switch_events, set_started_switch_event; simpl;
    rewrite ?E; simpl; rewrite ?lookup_insert_eq; simpl;
    rewrite ?insert_insert_eq; try reflexivity.
  by rewrite (insert_id _ d h) by done.
Qed.

(** C9: a flow-table operation for a dpid without a started handle is
    logged and skipped: the handler returns, the state changes in its log
    only, so nothing is written to the trace and no handle gets the
    operation. *)
Theorem operation_without_handle_is_skipped event d s :
  is_flow_table_operation event = true →
  trace_dpid event = Some d →
  started_switch_event s !! d = None →
  handler event = Some (add_operation_to_switch_event event)
  ∧ add_operation_to_switch_event event s
    = Ok tt (handle_no_exceptions event s)
  ∧ handle_no_exceptions event s
    = set_log
        (log s ++ [Info "Ignoring switch operation as there is no associated begin event."])
        s
  ∧ output (handle_no_exceptions event s) = output s
  ∧ started_switch_event (handle_no_exceptions event s)
    = started_switch_event s
  ∧ new_switch_events (handle_no_exceptions event s) = new_switch_events s.
Proof.
  intros Hop Hd Hnone.
  assert (handler event = Some (add_operation_to_switch_event event)) as Hh.
  { by destruct event. }
  pose proof (add_operation_closed event d s Hd) as Hc.
  rewrite Hnone in Hc.
  assert (handle_no_exceptions event s
          = set_log
              (log s ++ [Info "Ignoring switch operation as there is no associated begin event."])
              s) as Hs'.
  { unfold handle_no_exceptions. by rewrite Hh, Hc. }
  rewrite Hs'. by repeat split.
Qed.

(** *** A handle from its begin to its end *)

Lemma act_closed d a s h :
  started_switch_event s !! d = Some h → on_dpid d a →
  ∃ s', act d a s = Ok tt s'
        ∧ output s' = output s
        ∧ started_switch_event s' !! d = Some (accrue h a)
        ∧ default [] (new_switch_events s' !! d)
          = default [] (new_switch_events s !! d) ++ successors [a].
Proof.
  intros Hh Hon. destruct a as [e m p|op]; simpl in Hon |- *.
  - rewrite add_successor_closed, Hh. eexists. split; [reflexivity|].
    unfold set_new_switch_events, set_started_switch_event. simpl.
    by rewrite !lookup_insert_eq.
  - rewrite (add_operation_closed op d s Hon), Hh.
    eexists. split; [reflexivity|].
    unfold set_started_switch_event. simpl.
    by rewrite lookup_insert_eq, app_nil_r.
Qed.

Lemma acts_closed d acts s h :
  started_switch_event s !! d = Some h → Forall (on_dpid d) acts →
  ∃ s', for_each acts (act d) s = Ok tt s'
        ∧ output s' = output s
        ∧ started_switch_event s' !! d = Some (foldl accrue h acts)
        ∧ default [] (new_switch_events s' !! d)
          = default [] (new_switch_events s !! d) ++ successors acts.
Proof.
  revert s h. induction acts as [|a acts IH]; intros s h Hh Hon.
  - exists s. simpl. by rewrite app_nil_r.
  - apply Forall_cons in Hon as [Ha Hon].
    destruct (act_closed d a s h Hh Ha) as (s1 & Hrun & Hout & Hst & Hq).
    destruct (IH s1 _ Hst Hon) as (s2 & Hrun2 & Hout2 & Hst2 & Hq2).
    exists s2. simpl. unfold bind. rewrite Hrun, Hrun2.
    split; [done|]. split; [congruence|]. split; [done|].
    rewrite Hq2, Hq. unfold successors. simpl.
    by rewrite app_nil_r, <- app_assoc.
Qed.

(** C5: from the begin of a handle to its end, the trace receives first the
    successors still pending for the dpid, then the handle itself, with what
    it accrued, then the successors announced during the handle, in the order
    of their arrival.  (A successor announced while no handle is started is
    written at once, so it too precedes the handle.) *)
Theorem handle_is_emitted_before_its_successors d h acts s :
  dpid h = d →
  started_switch_event s !! d = None →
  Forall (on_dpid d) acts →
  ∃ s',
    (start_switch_event d h ;; for_each acts (act d) ;; finish_switch_event d)
      s = Ok tt s'
    ∧ output s'
      = output s
        ++ default [] (new_switch_events s !! d)
        ++ [OfSwitchHandle (foldl accrue h acts)]
        ++ successors acts
    ∧ started_switch_event s' !! d = None
    ∧ new_switch_events s' !! d = None
    ∧ ∀ event m p,
        add_successor_to_switch_event d event m p s
        = Ok tt (emit [event]
                   (set_log
                      (log s ++ [Info "Writing switch event even though there was no associated begin event."])
                      s)).
Proof.
  intros Hd Hnone Hon.
  assert (∀ event m p,
            add_successor_to_switch_event d event m p s
            = Ok tt (emit [event]
                       (set_log
                          (log s ++ [Info "Writing switch event even though there was no associated begin event."])
                          s))) as Horphan.
  { intros event m p. by rewrite add_successor_closed, Hnone. }
  pose proof (start_switch_event_closed d h s) as Hstart.
  rewrite Hd, Hnone in Hstart. cbv zeta in Hstart.
  set (s1 := set_started_switch_event _ _) in Hstart.
  assert (started_switch_event s1 !! d = Some h
          ∧ new_switch_events s1 !! d = None
          ∧ output s1 = output s ++ default [] (new_switch_events s !! d))
    as (Hst1 & Hq1 & Hout1).
  { unfold s1. destruct s. simpl.
    by rewrite lookup_insert_eq, lookup_delete_eq. }
  clearbody s1.
  destruct (acts_closed d acts s1 h Hst1 Hon) as (s2 & Hrun & Hout & Hst & Hq).
  pose proof (finish_switch_event_closed d s2) as Hfinish.
  rewrite Hst in Hfinish.
  eexists. split.
  { unfold bind. rewrite Hstart, Hrun. exact Hfinish. }
  refine ((λ H, conj (proj1 H)
                  (conj (proj1 (proj2 H))
                     (conj (proj2 (proj2 H)) Horphan))) _).
  rewrite Hq1 in Hq. simpl in Hq. rewrite Hq.
  clear Horphan. destruct s2. simpl in *.
  rewrite !lookup_delete_eq, Hout, Hout1. by rewrite <- !app_assoc.
Qed.

(** *** The controller lines *)

Lemma dpid_of_swid_closed swid s :
  dpid_of_swid swid s
  = match swid_to_dpid s !! swid with
    | None => Ok None s
    | Some d =>
        match dpid_to_swid s !! d with
        | None => Raise KeyError s
        | Some swid' =>
            if decide (swid' = swid) then Ok (Some d) s
            else Raise AssertionError s
        end
    end.
Proof.
  unfold dpid_of_swid, bind, gets, subscript.
  destruct (swid_to_dpid s !! swid) as [d|]; [|reflexivity].
  destruct (dpid_to_swid s !! d) as [swid'|]; [|reflexivity].
  unfold ret, py_assert. destruct (decide (swid' = swid)) as [Heq|Hne].
  - by rewrite bool_decide_eq_true_2.
  - by rewrite bool_decide_eq_false_2.
Qed.

Lemma dpid_of_swid_consistent swid s :
  swid_consistent s swid →
  dpid_of_swid swid s = Ok (swid_to_dpid s !! swid) s.
Proof.
  intros Hc. rewrite dpid_of_swid_closed.
  destruct (swid_to_dpid s !! swid) as [d|] eqn:E; [|reflexivity].
  rewrite (Hc d E). by rewrite decide_True.
Qed.

Lemma dpid_of_swid_raises swid s e s' :
  dpid_of_swid swid s = Raise e s' → s' = s ∧ ¬ swid_consistent s swid.
Proof.
  rewrite dpid_of_swid_closed. intros H.
  destruct (swid_to_dpid s !! swid) as [d|] eqn:E; [|done].
  destruct (dpid_to_swid s !! d) as [swid'|] eqn:E'.
  - destruct (decide (swid' = swid)); [done|]. injection H as _ <-.
    split; [done|]. intros Hc. specialize (Hc d E). congruence.
  - injection H as _ <-. split; [done|]. intros Hc.
    specialize (Hc d E). congruence.
Qed.

Lemma first_match_Some b64msg l x :
  first_match b64msg l = Some x → x ∈ l ∧ x.2 = b64msg.
Proof.
  unfold first_match. intros H. apply head_Some_elem_of in H.
  apply list_elem_of_filter in H as [-> H]. done.
Qed.

Lemma elem_of_dd_get k x d :
  x ∈ dd_get k d → ∃ l, (k, l) ∈ d ∧ x ∈ l.
Proof.
  induction d as [|[k' l] d IH]; simpl; [by rewrite elem_of_nil|].
  destruct (decide (k = k')) as [->|].
  - intros Hx. exists l. split; [by left | done].
  - intros Hx. destruct (IH Hx) as (l' & Hin & Hx'). exists l'.
    split; [by right | done].
Qed.

Lemma scan_unbound_Some b64msg bound unmatched dpid_key x :
  scan_unbound b64msg bound unmatched = Some (dpid_key, x) →
  (∃ l, (dpid_key, l) ∈ unmatched ∧ x ∈ l)
  ∧ x.2 = b64msg ∧ bound !! dpid_key = None.
Proof.
  induction unmatched as [|[k l] unmatched IH]; simpl; [done|].
  intros H.
  assert (scan_unbound b64msg bound unmatched = Some (dpid_key, x) →
          (∃ l', (dpid_key, l') ∈ (k, l) :: unmatched ∧ x ∈ l')
          ∧ x.2 = b64msg ∧ bound !! dpid_key = None) as Hrest.
  { intros Htl. destruct (IH Htl) as ((l' & Hin & Hx') & Hx & Hb).
    split; [|done]. exists l'. split; [by right | done]. }
  destruct (bound !! k) eqn:Hk; [by apply Hrest|].
  destruct (first_match b64msg l) as [y|] eqn:Hfm; [|by apply Hrest].
  injection H as <- <-. apply first_match_Some in Hfm as [Hin Hy].
  split; [|done]. exists l. split; [by left | done].
Qed.

Lemma first_match_None b64msg l :
  first_match b64msg l = None ↔ ∀ x, x ∈ l → x.2 ≠ b64msg.
Proof.
  unfold first_match. rewrite head_None. split.
  - intros Hnil x Hx Heq.
    assert (x ∈ filter (λ x : Tag * string, b64msg = x.2) l) as Hin.
    { by apply list_elem_of_filter. }
    rewrite Hnil in Hin. by apply elem_of_nil in Hin.
  - intros Hall. induction l as [|y l IH]; [done|].
    rewrite filter_cons. destruct (decide (b64msg = y.2)) as [Heq|Hne].
    + destruct (Hall y); [by left | done].
    + apply IH. intros x Hx. apply Hall. by right.
Qed.

Lemma dd_get_elem_of k l d :
  NoDup d.*1 → (k, l) ∈ d → dd_get k d = l.
Proof.
  induction d as [|[k' l'] d IH]; simpl; [by intros _ ?%elem_of_nil|].
  intros Hnd Hin. apply NoDup_cons in Hnd as [Hk' Hnd].
  apply elem_of_cons in Hin as [[= <- <-]|Hin].
  - by rewrite decide_True.
  - destruct (decide (k = k')) as [->|Hne]; [|by apply IH].
    destruct Hk'. apply list_elem_of_fmap. by exists (k', l).
Qed.

Lemma scan_unbound_None b64msg bound d :
  scan_unbound b64msg bound d = None
  ↔ ∀ k l x, (k, l) ∈ d → bound !! k = None → x ∈ l → x.2 ≠ b64msg.
Proof.
  induction d as [|[k l] d IH]; simpl.
  - split; [|done]. intros _ k l x Hin. by apply elem_of_nil in Hin.
  - destruct (bound !! k) eqn:Hk.
    + rewrite IH. split.
      * intros H k' l' x [[= -> ->]|Hin]%elem_of_cons Hb; [congruence|].
        by apply (H k' l').
      * intros H k' l' x Hin. apply (H k' l' x). by right.
    + destruct (first_match b64msg l) as [y|] eqn:Hfm.
      * split; [done|]. intros H.
        apply first_match_Some in Hfm as [Hy Hy2].
        destruct (H k l y); [by left|done|done|done].
      * rewrite IH. split.
        -- intros H k' l' x [[= -> ->]|Hin]%elem_of_cons Hb.
           ++ by apply first_match_None.
           ++ by apply (H k' l').
        -- intros H k' l' x Hin. apply (H k' l' x). by right.
Qed.

(** [find_controller_packet_in], case by case. *)
Lemma find_controller_packet_in_cases swid b64msg s :
  find_controller_packet_in swid b64msg s
  = match controller_msgin_to_mid_out s !! (swid, b64msg) with
    | Some m => Ok (Some m) s
    | None =>
        let unmatched := unmatched_HbMessageSend s in
        match swid_to_dpid s !! swid with
        | Some d =>
            match dpid_to_swid s !! d with
            | None => Raise KeyError s
            | Some swid' =>
                if decide (swid' = swid) then
                  match first_match b64msg (dd_get d unmatched) with
                  | Some x =>
                      Ok (Some x.1)
                        (set_unmatched_HbMessageSend
                           (dd_set d (list_remove x (dd_get d unmatched))
                              unmatched) s)
                  | None => Ok None s
                  end
                else Raise AssertionError s
            end
        | None =>
            match scan_unbound b64msg (dpid_to_swid s) unmatched with
            | Some (dpid_key, x) =>
                Ok (Some x.1)
                  (set_unmatched_HbMessageSend
                     (dd_set dpid_key
                        (list_remove x (dd_get dpid_key unmatched)) unmatched)
                     (set_dpid_to_swid (<[dpid_key := swid]> (dpid_to_swid s))
                        (set_swid_to_dpid
                           (<[swid := dpid_key]> (swid_to_dpid s)) s)))
            | None => Ok None s
            end
        end
    end.
Proof.
  unfold find_controller_packet_in, bind at 1, gets.
  destruct (controller_msgin_to_mid_out s !! (swid, b64msg)) as [m|];
    [reflexivity|].
  unfold bind at 1. rewrite dpid_of_swid_closed. cbv zeta.
  destruct (swid_to_dpid s !! swid) as [d|].
  - destruct (dpid_to_swid s !! d) as [swid'|]; [|reflexivity].
    destruct (decide (swid' = swid)); [|reflexivity].
    unfold bind at 1, gets.
    by destruct (first_match b64msg (dd_get d (unmatched_HbMessageSend s))).
  - unfold bind at 1, gets. unfold bind at 1, gets.
    by destruct (scan_unbound b64msg (dpid_to_swid s)
                   (unmatched_HbMessageSend s)) as [[dk x]|].
Qed.

(** [controller_ack_in] in terms of the search. *)
Lemma controller_ack_in_closed swid b64msg s :
  controller_ack_in swid b64msg s
  = match find_controller_packet_in swid b64msg s with
    | Ok None s1 => Raise AssertionError s1
    | Ok (Some m) s1 =>
        Ok tt (set_controller_msgin_to_mid_out
                 (<[(swid, b64msg) := m]> (controller_msgin_to_mid_out s1)) s1)
    | Raise e s1 => Raise e s1
    end.
Proof.
  unfold controller_ack_in, bind.
  by destruct (find_controller_packet_in swid b64msg s) as [[m|] s1|e s1].
Qed.

(** What the search finds among the tuples, when the pair is not recorded and
    the swid is bound consistently or not at all. *)
Lemma searched_tuple_found swid b64msg s :
  keys_unique (unmatched_HbMessageSend s) →
  swid_consistent s swid →
  controller_msgin_to_mid_out s !! (swid, b64msg) = None →
  match find_controller_packet_in swid b64msg s with
  | Ok None s1 =>
      s1 = s ∧ ∀ d m, searched s swid d → ¬ sent_under s d (m, b64msg)
  | Ok (Some m) s1 =>
      controller_msgin_to_mid_out s1 = controller_msgin_to_mid_out s
      ∧ ∃ d, searched s swid d ∧ sent_under s d (m, b64msg)
             ∧ swid_to_dpid s1 !! swid = Some d
             ∧ dpid_to_swid s1 !! d = Some swid
  | Raise _ _ => False
  end.
Proof.
  intros Hnd Hc Hrec. rewrite find_controller_packet_in_cases, Hrec.
  cbv zeta. unfold searched, sent_under.
  destruct (swid_to_dpid s !! swid) as [d|] eqn:Hsd.
  - rewrite (Hc d Hsd). rewrite decide_True by done.
    destruct (first_match b64msg (dd_get d (unmatched_HbMessageSend s)))
      as [x|] eqn:Hfm.
    + apply first_match_Some in Hfm as [Hin Hx].
      apply elem_of_dd_get in Hin as (l & Hl & Hin).
      split; [done|]. exists d. split; [done|]. split.
      * exists l. split; [done|]. destruct x; simpl in *. by subst.
      * simpl. split; [done|]. by apply Hc.
    + split; [done|]. intros d' m -> (l & Hl & Hin).
      rewrite first_match_None in Hfm.
      rewrite (dd_get_elem_of _ _ _ Hnd Hl) in Hfm.
      by apply (Hfm _ Hin).
  - destruct (scan_unbound b64msg (dpid_to_swid s)
                (unmatched_HbMessageSend s)) as [[dk x]|] eqn:Hscan.
    + apply scan_unbound_Some in Hscan as ((l & Hl & Hin) & Hx & Hb).
      split; [done|]. exists dk. split; [done|]. split.
      * exists l. split; [done|]. destruct x; simpl in *. by subst.
      * simpl. by rewrite !lookup_insert_eq.
    + split; [done|]. intros d m Hd (l & Hl & Hin).
      rewrite scan_unbound_None in Hscan.
      by apply (Hscan d l (m, b64msg) Hl Hd Hin).
Qed.


(** *** The keys of the dictionary of sent messages *)

Lemma dd_set_keys k l d :
  (dd_set k l d).*1 = if decide (k ∈ d.*1) then d.*1 else d.*1 ++ [k].
Proof.
  induction d as [|[k' l'] d IH].
  - destruct (decide (k ∈ ([] : DefaultDict).*1)) as [Hin|_]; [|done].
    by apply elem_of_nil in Hin.
  - cbn [dd_set]. destruct (decide (k = k')) as [->|Hne].
    + destruct (decide (k' ∈ ((k', l') :: d).*1)) as [_|Hnin]; [done|].
      destruct Hnin. by left.
    + rewrite !fmap_cons, IH. cbn [fst].
      destruct (decide (k ∈ d.*1)) as [Hin|Hnin];
        destruct (decide (k ∈ k' :: d.*1)) as [Hin'|Hnin']; try done.
      * destruct Hnin'. by right.
      * by apply elem_of_cons in Hin' as [?|?].
Qed.

Lemma keys_unique_dd_set k l d :
  keys_unique d → keys_unique (dd_set k l d).
Proof.
  unfold keys_unique. rewrite dd_set_keys. intros Hnd.
  destruct (decide (k ∈ d.*1)) as [Hin|Hnin]; [done|].
  apply NoDup_app. split; [done|]. split; [|apply NoDup_singleton].
  intros x Hx ->%list_elem_of_singleton. done.
Qed.

Lemma keeps_keys_ret {A} (a : A) : keeps_keys (ret a).
Proof. by intros s. Qed.

Lemma keeps_keys_raise {A} e : keeps_keys (@raise A e).
Proof. by intros s. Qed.

Lemma keeps_keys_gets {A} (f : t → A) : keeps_keys (gets f).
Proof. by intros s. Qed.

Lemma keeps_keys_modify f :
  (∀ s, keys_unique (unmatched_HbMessageSend s) →
        keys_unique (unmatched_HbMessageSend (f s))) →
  keeps_keys (modify f).
Proof. intros H s. apply H. Qed.

Lemma keeps_keys_bind {A B} (m : M A) (k : A → M B) :
  keeps_keys m → (∀ a, keeps_keys (k a)) → keeps_keys (bind m k).
Proof.
  intros Hm Hk s Hs. unfold bind. specialize (Hm s Hs).
  destruct (m s) as [a s'|e s']; simpl in *; [|done].
  by apply Hk.
Qed.

Lemma keeps_keys_assert b : keeps_keys (py_assert b).
Proof. destruct b; [apply keeps_keys_ret | apply keeps_keys_raise]. Qed.

Lemma keeps_keys_subscript {V} (d : gmap Z V) k :
  keeps_keys (subscript d k).
Proof.
  unfold subscript.
  destruct (d !! k); [apply keeps_keys_ret | apply keeps_keys_raise].
Qed.

Lemma keeps_keys_on_pids {A} (f : ObjectRegistry → A * ObjectRegistry) :
  keeps_keys (on_pids f).
Proof. intros s. unfold on_pids. by destruct (f (pids s)). Qed.

Lemma keeps_keys_on_mids {A} (f : ObjectRegistry → A * ObjectRegistry) :
  keeps_keys (on_mids f).
Proof. intros s. unfold on_mids. by destruct (f (mids s)). Qed.

Lemma keeps_keys_for_each {A} (l : list A) (body : A → M unit) :
  (∀ x, keeps_keys (body x)) → keeps_keys (for_each l body).
Proof.
  intros Hb. induction l as [|x l IH]; simpl; [apply keeps_keys_ret|].
  apply keeps_keys_bind; [apply Hb | by intros _].
Qed.

Ltac keeps_keys :=
  repeat first
    [ apply keeps_keys_ret | apply keeps_keys_raise | apply keeps_keys_gets
    | apply keeps_keys_assert | apply keeps_keys_subscript
    | apply keeps_keys_on_pids | apply keeps_keys_on_mids
    | apply keeps_keys_modify;
      let s := fresh "s" in let H := fresh "H" in
      intros s H; first [exact H | by apply keys_unique_dd_set]
    | match goal with
      | |- keeps_keys (bind _ _) => apply keeps_keys_bind; [|intros]
      | |- keeps_keys (for_each _ _) => apply keeps_keys_for_each; intros
      | |- keeps_keys (match ?x with _ => _ end) => destruct x
      | |- keeps_keys (if ?x then _ else _) => destruct x
      | |- keeps_keys (let '(_, _) := ?x in _) => destruct x
      end ].

Lemma keeps_keys_find_controller_packet_in swid b64msg :
  keeps_keys (find_controller_packet_in swid b64msg).
Proof.
  intros s Hs. rewrite find_controller_packet_in_cases. cbv zeta.
  repeat case_match; simpl; try done; by apply keys_unique_dd_set.
Qed.

Lemma keeps_keys_find_controller_packet_out swid b64msg :
  keeps_keys (find_controller_packet_out swid b64msg).
Proof.
  unfold find_controller_packet_out, dpid_of_swid. keeps_keys.
Qed.

Lemma keeps_keys_bind_matching_lines d b64msg lines matched :
  keeps_keys (bind_matching_lines d b64msg lines matched).
Proof.
  revert matched. induction lines as [|[[[a b] c] e] lines IH];
    intros matched; simpl; [apply keeps_keys_ret|].
  destruct (decide (b64msg = e)); [|apply IH]. keeps_keys. apply IH.
Qed.

Lemma keeps_keys_handler event h : handler event = Some h → keeps_keys h.
Proof.
  destruct event; simpl; intros [= <-];
    unfold handle_switch_ph_begin, handle_switch_ph_end,
      handle_switch_mh_begin, handle_switch_mh_end, handle_switch_ms,
      handle_switch_ps, handle_switch_table_read, handle_switch_table_write,
      handle_switch_table_entry_expiry, handle_switch_buf_put,
      handle_switch_buf_get, handle_switch_pu_begin, handle_switch_pu_end,
      handle_host_ph_begin, handle_host_ph_end, handle_host_ps,
      start_switch_event, finish_switch_event, start_host_event,
      finish_host_event, add_operation_to_switch_event,
      add_successor_to_switch_event, add_successor_to_host_event,
      match_unmatched_controller_msgout, update_started,
      is_switch_event_started, is_host_event_started, dpid_of,
      write_event_to_trace, write, info;
    keeps_keys; apply keeps_keys_bind_matching_lines.
Qed.

Lemma keeps_keys_handle_line_match line : keeps_keys (handle_line_match line).
Proof.
  destruct line; simpl.
  - unfold controller_ack_in. keeps_keys.
    apply keeps_keys_find_controller_packet_in.
  - unfold controller_ack_out, add_controller_hb_edge, write_event_to_trace,
      write, info.
    keeps_keys; first [ apply keeps_keys_find_controller_packet_in
                      | apply keeps_keys_find_controller_packet_out ].
Qed.

(** In every run of the logger the dictionary of sent messages holds each
    dpid once. *)
Lemma keys_unique_run inputs :
  keys_unique (unmatched_HbMessageSend (run inputs init)).
Proof.
  assert (∀ s, keys_unique (unmatched_HbMessageSend s) →
               keys_unique (unmatched_HbMessageSend (run inputs s))) as H.
  { unfold run. induction inputs as [|i inputs IH]; intros s Hs; [done|].
    simpl. apply IH. destruct i as [event|line]; simpl.
    - unfold handle_no_exceptions.
      destruct (handler event) as [h|] eqn:Hh; [|done].
      pose proof (keeps_keys_handler event h Hh s Hs) as H.
      by destruct (h s).
    - by apply keeps_keys_handle_line_match. }
  apply H. constructor.
Qed.

(** C4, amended: [controller_ack_in] aborts in two cases, in both of which
    the pair is not yet recorded and the logger is left as it was.  Either
    [find_controller_packet_in] returns [None], which it does exactly when no
    tuple with the message is stored under a dpid the line may stem from and
    the swid is not misbound, and the assertion of [controller_ack_in]
    fails; or the swid is bound to a dpid that is not bound back to it, and
    the search itself fails on its assertion (on the subscript, if the dpid
    has no swid at all), whatever is stored.  In every other case the method
    returns, and [controller_msgin_to_mid_out] holds the mid_out found for
    the pair and is unchanged elsewhere.  That mid_out is the one of a tuple
    stored under a dpid the line may stem from, to which the swid is bound
    afterwards; for a pair already recorded it is the recorded one, and the
    logger is unchanged. *)
Theorem controller_ack_in_aborts_iff_not_found_or_misbound swid b64msg s :
  keys_unique (unmatched_HbMessageSend s) →
  let recorded := controller_msgin_to_mid_out s !! (swid, b64msg) in
  ((∃ s1, find_controller_packet_in swid b64msg s = Ok None s1)
   ↔ no_outbound s swid b64msg ∧ swid_consistent s swid)
  ∧ (∀ e s1,
       controller_ack_in swid b64msg s = Raise e s1
       ↔ s1 = s ∧ recorded = None
         ∧ ((e = AssertionError
             ∧ no_outbound s swid b64msg ∧ swid_consistent s swid)
            ∨ ∃ d, swid_to_dpid s !! swid = Some d
                   ∧ ((e = AssertionError
                       ∧ ∃ swid', dpid_to_swid s !! d = Some swid'
                                  ∧ swid' ≠ swid)
                      ∨ (e = KeyError ∧ dpid_to_swid s !! d = None))))
  ∧ ((∃ s', controller_ack_in swid b64msg s = Ok tt s')
     ↔ is_Some recorded
       ∨ (swid_consistent s swid
          ∧ ∃ d m, searched s swid d ∧ sent_under s d (m, b64msg)))
  ∧ (∀ s', controller_ack_in swid b64msg s = Ok tt s' →
       ∃ m,
         controller_msgin_to_mid_out s'
         = <[(swid, b64msg) := m]> (controller_msgin_to_mid_out s)
         ∧ (recorded = Some m
            ∨ (recorded = None
               ∧ ∃ d, searched s swid d ∧ sent_under s d (m, b64msg)
                      ∧ swid_to_dpid s' !! swid = Some d
                      ∧ dpid_to_swid s' !! d = Some swid)))
  ∧ (∀ m, recorded = Some m → controller_ack_in swid b64msg s = Ok tt s).
Proof.
  intros Hnd recorded.
  assert (∀ m, recorded = Some m → controller_ack_in swid b64msg s = Ok tt s)
    as Hknown.
  { intros m Hm. rewrite controller_ack_in_closed.
    rewrite find_controller_packet_in_cases. fold recorded. rewrite Hm.
    f_equal. unfold set_controller_msgin_to_mid_out.
    rewrite insert_id by done. by destruct s. }
  assert (recorded = None → ¬ swid_consistent s swid →
          ∃ d, swid_to_dpid s !! swid = Some d
               ∧ ((find_controller_packet_in swid b64msg s
                   = Raise AssertionError s
                   ∧ ∃ swid', dpid_to_swid s !! d = Some swid' ∧ swid' ≠ swid)
                  ∨ (find_controller_packet_in swid b64msg s
                     = Raise KeyError s
                     ∧ dpid_to_swid s !! d = None))) as Hmis.
  { intros Hrec Hnc. rewrite find_controller_packet_in_cases.
    fold recorded. rewrite Hrec. cbv zeta.
    destruct (swid_to_dpid s !! swid) as [d|] eqn:Hsd.
    2: { destruct Hnc. intros d Hd. congruence. }
    exists d. split; [done|].
    destruct (dpid_to_swid s !! d) as [swid'|] eqn:Hds; [|by right].
    destruct (decide (swid' = swid)) as [->|Hne].
    - destruct Hnc. intros d' Hd'. congruence.
    - left. split; [done|]. by exists swid'. }
  assert (Decision (swid_consistent s swid)) as Hdec.
  { unfold swid_consistent.
    destruct (swid_to_dpid s !! swid) as [d|].
    - destruct (decide (dpid_to_swid s !! d = Some swid)) as [H|H].
      + left. by intros d' [= <-].
      + right. intros Hc. by apply H, Hc.
    - left. by intros d' ?. }
  pose proof (searched_tuple_found swid b64msg s Hnd) as Hfound.
  fold recorded in Hfound.
  split; [|split; [|split; [|split]]].
  - split.
    + intros [s1 Hf]. destruct recorded as [m|] eqn:Hrec.
      { rewrite find_controller_packet_in_cases in Hf. fold recorded in Hf.
        by rewrite Hrec in Hf. }
      destruct Hdec as [Hc|Hnc].
      * specialize (Hfound Hc eq_refl). rewrite Hf in Hfound.
        destruct Hfound as [_ Hnone]. by split; [split|].
      * destruct (Hmis eq_refl Hnc) as (d & _ & [[Hr _]|[Hr _]]);
          congruence.
    + intros [[Hrec Hnone] Hc]. specialize (Hfound Hc Hrec).
      destruct (find_controller_packet_in swid b64msg s) as [[m|] s1|e s1];
        [|by eexists|done].
      destruct Hfound as (_ & d & Hd & Hs & _). by destruct (Hnone d m).
  - intros e s1. rewrite controller_ack_in_closed. split.
    + intros Hr. destruct recorded as [m|] eqn:Hrec.
      { rewrite find_controller_packet_in_cases in Hr. fold recorded in Hr.
        by rewrite Hrec in Hr. }
      destruct Hdec as [Hc|Hnc].
      * specialize (Hfound Hc eq_refl).
        destruct (find_controller_packet_in swid b64msg s)
          as [[m|] s2|e2 s2]; [done| |done].
        destruct Hfound as [-> Hnone]. injection Hr as <- <-.
        split; [done|]. split; [done|]. left. by split; [|split; [split|]].
      * destruct (Hmis eq_refl Hnc) as (d & Hd & [[Hf Hs]|[Hf Hs]]);
          rewrite Hf in Hr; injection Hr as <- <-;
          (split; [done|]); (split; [done|]); right; exists d;
          (split; [done|]); [left|right]; done.
    + intros (-> & Hrec & [(-> & [_ Hnone] & Hc)|(d & Hd & Hcase)]).
      * specialize (Hfound Hc Hrec).
        destruct (find_controller_packet_in swid b64msg s)
          as [[m|] s2|e2 s2]; [|by destruct Hfound as [-> _]|done].
        destruct Hfound as (_ & d & Hd & Hs & _). by destruct (Hnone d m).
      * assert (¬ swid_consistent s swid) as Hnc.
        { intros Hc. specialize (Hc d Hd).
          destruct Hcase as [(_ & swid' & Hs & Hne)|[_ Hs]]; congruence. }
        destruct (Hmis Hrec Hnc) as (d' & Hd' & [[Hf (sw & Hs & _)]|[Hf Hs]]);
          rewrite Hf; assert (d' = d) as -> by congruence;
          destruct Hcase as [(-> & swid' & Hs' & Hne)|[-> Hs']];
          congruence.
  - rewrite controller_ack_in_closed. split.
    + intros [s' Hok]. destruct recorded as [m|] eqn:Hrec; [by left|].
      right. destruct Hdec as [Hc|Hnc].
      * specialize (Hfound Hc eq_refl).
        destruct (find_controller_packet_in swid b64msg s)
          as [[m|] s2|e2 s2]; [|done|done].
        destruct Hfound as (_ & d & Hd & Hs & _). split; [done|].
        by exists d, m.
      * destruct (Hmis eq_refl Hnc) as (d & _ & [[Hf _]|[Hf _]]);
          by rewrite Hf in Hok.
    + intros [[m Hm]|(Hc & d & m & Hd & Hs)].
      * rewrite <- controller_ack_in_closed, (Hknown m Hm). by eexists.
      * destruct recorded as [m'|] eqn:Hrec.
        { rewrite <- controller_ack_in_closed, (Hknown m' eq_refl).
          by eexists. }
        specialize (Hfound Hc eq_refl).
        destruct (find_controller_packet_in swid b64msg s)
          as [[m'|] s2|e2 s2]; [by eexists| |done].
        destruct Hfound as [_ Hnone]. by destruct (Hnone d m).
  - intros s' Hok. destruct recorded as [m|] eqn:Hrec.
    + exists m. rewrite (Hknown m eq_refl) in Hok. injection Hok as <-.
      split; [|by left]. by rewrite insert_id.
    + rewrite controller_ack_in_closed in Hok. destruct Hdec as [Hc|Hnc].
      * specialize (Hfound Hc eq_refl).
        destruct (find_controller_packet_in swid b64msg s)
          as [[m|] s2|e2 s2]; [|done|done].
        injection Hok as <-. exists m.
        destruct Hfound as (Hmap & d & Hd & Hs & Hb1 & Hb2).
        split; [simpl; by rewrite Hmap|]. right. split; [done|].
        exists d. by repeat split.
      * destruct (Hmis eq_refl Hnc) as (d & _ & [[Hf _]|[Hf _]]);
          by rewrite Hf in Hok.
  - exact Hknown.
Qed.

(** *** Methods that leave the trace and the handles alone *)

Lemma frames_ret {A} (a : A) : frames (ret a).
Proof. by intros s. Qed.

Lemma frames_raise {A} e : frames (@raise A e).
Proof. by intros s. Qed.

Lemma frames_gets {A} (f : t → A) : frames (gets f).
Proof. by intros s. Qed.

Lemma frames_modify f : (∀ s, view (f s) = view s) → frames (modify f).
Proof. intros H s. apply H. Qed.

Lemma frames_bind {A B} (m : M A) (k : A → M B) :
  frames m → (∀ a, frames (k a)) → frames (bind m k).
Proof.
  intros Hm Hk s. unfold bind. specialize (Hm s).
  destruct (m s) as [a s'|e s']; simpl in *; [|done].
  by rewrite Hk.
Qed.

Lemma frames_assert b : frames (py_assert b).
Proof. destruct b; [apply frames_ret | apply frames_raise]. Qed.

Lemma frames_subscript {V} (d : gmap Z V) k : frames (subscript d k).
Proof.
  unfold subscript. destruct (d !! k); [apply frames_ret | apply frames_raise].
Qed.

Lemma frames_on_pids {A} (f : ObjectRegistry → A * ObjectRegistry) :
  frames (on_pids f).
Proof. intros s. unfold on_pids. by destruct (f (pids s)). Qed.

Lemma frames_on_mids {A} (f : ObjectRegistry → A * ObjectRegistry) :
  frames (on_mids f).
Proof. intros s. unfold on_mids. by destruct (f (mids s)). Qed.

Lemma frames_info text : frames (info text).
Proof. by intros s. Qed.

Ltac frames :=
  repeat first
    [ apply frames_ret | apply frames_raise | apply frames_gets
    | apply frames_assert | apply frames_subscript | apply frames_on_pids
    | apply frames_on_mids | apply frames_info
    | apply frames_modify; intros; reflexivity
    | apply frames_bind; [|intros]
    | match goal with
      | |- frames (match ?x with _ => _ end) => destruct x
      | |- frames (if ?x then _ else _) => destruct x
      | |- frames (let '(_, _) := ?x in _) => destruct x
      end ].

Lemma frames_dpid_of_swid swid : frames (dpid_of_swid swid).
Proof. unfold dpid_of_swid. frames. Qed.

Lemma frames_find_controller_packet_in swid b64msg :
  frames (find_controller_packet_in swid b64msg).
Proof.
  unfold find_controller_packet_in. frames; apply frames_dpid_of_swid.
Qed.

Lemma frames_find_controller_packet_out swid b64msg :
  frames (find_controller_packet_out swid b64msg).
Proof.
  unfold find_controller_packet_out. frames; apply frames_dpid_of_swid.
Qed.

Lemma frames_bind_matching_lines d b64msg lines matched :
  frames (bind_matching_lines d b64msg lines matched).
Proof.
  revert matched. induction lines as [|[[[a b] c] e] lines IH];
    intros matched; simpl; [apply frames_ret|].
  destruct (decide (b64msg = e)); [|apply IH]. frames. apply IH.
Qed.

Lemma frames_match_unmatched_controller_msgout m d b64msg :
  frames (match_unmatched_controller_msgout m d b64msg).
Proof.
  unfold match_unmatched_controller_msgout. frames.
  apply frames_bind_matching_lines.
Qed.

Lemma bind_matching_lines_returns d b64msg lines matched s :
  ∃ found s', bind_matching_lines d b64msg lines matched s = Ok found s'.
Proof.
  revert matched s. induction lines as [|[[[a b] c] e] lines IH];
    intros matched s; simpl; [by eexists _, _|].
  destruct (decide (b64msg = e)); [|apply IH].
  unfold bind, modify. apply IH.
Qed.

Lemma bind_returns {A B} (m : M A) (k : A → M B) (P : B → Prop) :
  (∀ a s b s', k a s = Ok b s' → P b) →
  ∀ s b s', bind m k s = Ok b s' → P b.
Proof.
  intros Hk s b s'. unfold bind. destruct (m s) as [a s1|e s1]; [|done].
  apply Hk.
Qed.

(** Whatever it finds, [match_unmatched_controller_msgout] writes nothing to
    the trace and never returns [True]: a line that matches is taken out of
    the buffer and the call that follows raises [TypeError]. *)
Lemma match_unmatched_never_links m d b64msg s :
  output (state_of (match_unmatched_controller_msgout m d b64msg s))
  = output s
  ∧ ∀ b s', match_unmatched_controller_msgout m d b64msg s = Ok b s' →
            b = false.
Proof.
  split.
  - pose proof (frames_match_unmatched_controller_msgout m d b64msg s) as H.
    unfold view in H. congruence.
  - revert s. unfold match_unmatched_controller_msgout.
    apply (bind_returns _ _ (λ b, b = false)). intros d2s.
    apply (bind_returns _ _ (λ b, b = false)). intros swid.
    apply (bind_returns _ _ (λ b, b = false)). intros lines.
    apply (bind_returns _ _ (λ b, b = false)). intros [line|] s1 b s' H.
    + by unfold bind, modify, raise in H.
    + by injection H as <- _.
Qed.

(** *** Buffered packets *)

Lemma handle_switch_buf_put_closed event d packet_ s :
  trace_dpid event = Some d →
  handle_switch_buf_put event d packet_ s
  = match started_switch_event s !! d with
    | None =>
        Ok tt (set_log
                 (log s ++ [Info "Ignoring switch operation as there is no associated begin event."])
                 s)
    | Some h =>
        let got := get_tag (packet_id packet_) (pids s) in
        let new := new_tag (packet_id packet_) got.2 in
        if decide (class h = HbPacketHandle_class) then
          if decide (Some got.1 = pid_in h) then
            Ok tt (set_started_switch_event
                     (<[d := append_operation event
                               (append_pid_out new.1 h)]>
                        (started_switch_event s))
                     (set_pids new.2 s))
          else Raise AssertionError (set_pids got.2 s)
        else Raise AssertionError s
    end.
Proof.
  intros Hd. unfold handle_switch_buf_put.
  unfold bind, is_switch_event_started, gets.
  destruct (started_switch_event s !! d) as [h|] eqn:E;
    cbn [bool_decide decide_rel is_Some_dec].
  - unfold subscript, py_assert, on_pids, update_started, bind, gets,
      subscript, ret, raise, modify. rewrite E.
    destruct (decide (class h = HbPacketHandle_class)) as [Hc|Hc].
    2: { by rewrite bool_decide_eq_false_2. }
    rewrite bool_decide_eq_true_2 by done.
    destruct (get_tag (packet_id packet_) (pids s)) as [tag r1] eqn:Hg.
    cbn [fst snd started_switch_event set_pids]. rewrite E.
    destruct (decide (Some tag = pid_in h)) as [Hp|Hp].
    2: { by rewrite bool_decide_eq_false_2. }
    rewrite bool_decide_eq_true_2 by done. cbn [pids set_pids].
    destruct (new_tag (packet_id packet_) r1) as [pid_out_ r2] eqn:Hn.
    cbn [fst snd started_switch_event set_pids]. rewrite E.
    rewrite (add_operation_closed event d) by done.
    destruct s; simpl in *. by rewrite lookup_insert_eq, insert_insert_eq.
  - unfold ret. rewrite (add_operation_closed event d) by done. by rewrite E.
Qed.

Lemma get_tag_ok o r :
  registry_ok r →
  registry_ok (get_tag o r).2
  ∧ (get_tag o r).1 < next_tag (get_tag o r).2
  ∧ next_tag r ≤ next_tag (get_tag o r).2.
Proof.
  intros Hr. unfold get_tag. destruct (tags r !! o) as [tag|] eqn:E; simpl.
  - split; [done|]. split; [by apply (Hr o) | lia].
  - split; [|lia]. intros o' tag'. simpl.
    destruct (decide (o = o')) as [->|].
    + rewrite lookup_insert_eq. intros [= <-]. lia.
    + rewrite lookup_insert_ne by done. intros H. specialize (Hr _ _ H). lia.
Qed.

(** *** The invariant of the trace *)

Lemma handles_ok_view s s' : view s' = view s → handles_ok s → handles_ok s'.
Proof.
  unfold view, handles_ok. intros [= -> -> -> ->]. done.
Qed.

Lemma frames_preserves {A} (m : M A) : frames m → preserves m.
Proof. intros H s. apply handles_ok_view, H. Qed.

Lemma preserves_bind {A B} (m : M A) (k : A → M B) :
  preserves m → (∀ a, preserves (k a)) → preserves (bind m k).
Proof.
  intros Hm Hk s Hs. unfold bind. specialize (Hm s Hs).
  destruct (m s) as [a s'|e s']; simpl in *; [|done]. by apply Hk.
Qed.

Lemma buffered_have_pid_out_accrue h event m p :
  buffered_have_pid_out h →
  buffered_have_pid_out (accrue h (Successor event m p)).
Proof.
  unfold buffered_have_pid_out. destruct m, p; simpl;
    rewrite ?length_app; simpl; lia.
Qed.

Lemma buffered_have_pid_out_operation h op :
  is_BufferPut op = false →
  buffered_have_pid_out h → buffered_have_pid_out (append_operation op h).
Proof.
  unfold buffered_have_pid_out. simpl. intros Hop.
  rewrite filter_app, filter_cons, decide_False by congruence.
  by rewrite filter_nil, app_nil_r.
Qed.

Lemma buffered_have_pid_out_put h op p :
  buffered_have_pid_out h →
  buffered_have_pid_out (append_operation op (append_pid_out p h)).
Proof.
  unfold buffered_have_pid_out. simpl.
  rewrite filter_app, !length_app. simpl. intros H.
  pose proof (length_filter (λ op, is_BufferPut op = true) [op]) as Hle.
  simpl in Hle. lia.
Qed.

Lemma handles_ok_emit l s :
  Forall event_ok l → handles_ok s → handles_ok (emit l s).
Proof.
  intros Hl (Ho & Hs & Hq & Hh). split; [|done].
  destruct s; simpl in *. by apply Forall_app.
Qed.

Lemma handles_ok_queue s d :
  handles_ok s → Forall event_ok (default [] (new_switch_events s !! d)).
Proof.
  intros (_ & _ & Hq & _). destruct (new_switch_events s !! d) eqn:E; simpl.
  - by apply (Hq d).
  - constructor.
Qed.

Lemma handles_ok_host_queue s d :
  handles_ok s → Forall event_ok (default [] (new_host_events s !! d)).
Proof.
  intros (_ & _ & _ & Hq). destruct (new_host_events s !! d) eqn:E; simpl.
  - by apply (Hq d).
  - constructor.
Qed.

Lemma handles_ok_set_started m s :
  (∀ d h, m !! d = Some h → buffered_have_pid_out h) →
  handles_ok s → handles_ok (set_started_switch_event m s).
Proof. intros Hm (Ho & _ & Hq & Hh). by split. Qed.

Lemma handles_ok_set_queue q s :
  (∀ d l, q !! d = Some l → Forall event_ok l) →
  handles_ok s → handles_ok (set_new_switch_events q s).
Proof. intros Hm (Ho & Hs & _ & Hh). by split. Qed.

Lemma handles_ok_set_host_queue q s :
  (∀ d l, q !! d = Some l → Forall event_ok l) →
  handles_ok s → handles_ok (set_new_host_events q s).
Proof. intros Hm (Ho & Hs & Hq & _). by split. Qed.

Lemma handles_ok_started s d h :
  handles_ok s → started_switch_event s !! d = Some h →
  buffered_have_pid_out h.
Proof. intros (_ & Hs & _) H. by apply (Hs d). Qed.

Lemma insert_ok {V} (P : V → Prop) (m : gmap Z V) k v :
  P v → (∀ d x, m !! d = Some x → P x) →
  ∀ d x, <[k := v]> m !! d = Some x → P x.
Proof.
  intros Hv Hm d x. destruct (decide (k = d)) as [->|].
  - rewrite lookup_insert_eq. by intros [= <-].
  - rewrite lookup_insert_ne by done. apply Hm.
Qed.

Lemma delete_ok {V} (P : V → Prop) (m : gmap Z V) k :
  (∀ d x, m !! d = Some x → P x) →
  ∀ d x, delete k m !! d = Some x → P x.
Proof.
  intros Hm d x. destruct (decide (k = d)) as [->|].
  - by rewrite lookup_delete_eq.
  - rewrite lookup_delete_ne by done. apply Hm.
Qed.

Lemma preserves_start_switch_event d h :
  buffered_have_pid_out h → preserves (start_switch_event d h).
Proof.
  intros Hh s Hs. rewrite start_switch_event_closed. cbv zeta.
  assert (handles_ok
            (set_new_switch_events (delete d (new_switch_events s))
               (emit (default [] (new_switch_events s !! d)) s))) as H1.
  { apply handles_ok_set_queue.
    - apply delete_ok. by destruct Hs as (_ & _ & ? & _).
    - apply handles_ok_emit; [by apply handles_ok_queue | done]. }
  destruct (started_switch_event s !! dpid h); [done|]. simpl.
  apply handles_ok_set_started; [|done].
  apply insert_ok; [done|]. by destruct Hs as (_ & ? & _).
Qed.

Lemma preserves_finish_switch_event d : preserves (finish_switch_event d).
Proof.
  intros s Hs. rewrite finish_switch_event_closed.
  destruct (started_switch_event s !! d) as [h|] eqn:E; [|done]. simpl.
  apply handles_ok_set_queue.
  { apply delete_ok. by destruct Hs as (_ & _ & ? & _). }
  apply handles_ok_emit; [by apply handles_ok_queue|].
  apply handles_ok_set_started.
  { apply delete_ok. by destruct Hs as (_ & ? & _). }
  apply handles_ok_emit; [|done].
  constructor; [|done]. by apply (handles_ok_started s d).
Qed.

Lemma preserves_add_operation event :
  is_BufferPut event = false →
  preserves (add_operation_to_switch_event event).
Proof.
  intros Hop s Hs. destruct (trace_dpid event) as [d|] eqn:Hd.
  - rewrite (add_operation_closed event d) by done.
    destruct (started_switch_event s !! d) as [h|] eqn:E; simpl.
    + apply handles_ok_set_started; [|done].
      apply insert_ok; [|by destruct Hs as (_ & ? & _)].
      apply buffered_have_pid_out_operation; [done|].
      by apply (handles_ok_started s d).
    + by apply (handles_ok_view s).
  - unfold add_operation_to_switch_event, dpid_of, bind. by rewrite Hd.
Qed.

Lemma preserves_add_successor d event m p :
  event_ok event → preserves (add_successor_to_switch_event d event m p).
Proof.
  intros He s Hs. rewrite add_successor_closed.
  destruct (started_switch_event s !! d) as [h|] eqn:E; simpl.
  - apply handles_ok_set_queue.
    + apply insert_ok; [|by destruct Hs as (_ & _ & ? & _)].
      apply Forall_app. split; [by apply handles_ok_queue|].
      by constructor.
    + apply handles_ok_set_started; [|done].
      apply insert_ok; [|by destruct Hs as (_ & ? & _)].
      apply (buffered_have_pid_out_accrue h event m p).
      by apply (handles_ok_started s d).
  - apply handles_ok_emit; [by constructor|]. by apply (handles_ok_view s).
Qed.

Lemma preserves_update_started d f :
  (∀ h, buffered_have_pid_out h → buffered_have_pid_out (f h)) →
  preserves (update_started d f).
Proof.
  intros Hf s Hs. unfold update_started, bind, gets, subscript.
  destruct (started_switch_event s !! d) as [h|] eqn:E; [|done]. simpl.
  apply handles_ok_set_started; [|done].
  apply insert_ok; [|by destruct Hs as (_ & ? & _)].
  apply Hf. by apply (handles_ok_started s d).
Qed.

Lemma preserves_buf_put event d packet_ :
  trace_dpid event = Some d →
  preserves (handle_switch_buf_put event d packet_).
Proof.
  intros Hd s Hs. rewrite (handle_switch_buf_put_closed event d) by done.
  destruct (started_switch_event s !! d) as [h|] eqn:E; simpl.
  - destruct (decide (class h = HbPacketHandle_class)); [|done].
    destruct (decide (_ = pid_in h)); simpl.
    + apply handles_ok_set_started; [|by apply (handles_ok_view s)].
      apply insert_ok; [|by destruct Hs as (_ & ? & _)].
      apply buffered_have_pid_out_put. by apply (handles_ok_started s d).
    + by apply (handles_ok_view s).
  - by apply (handles_ok_view s).
Qed.

(** The host helpers write host handles and queued sends only. *)
Lemma for_each_write_preserves l :
  Forall event_ok l → preserves (for_each l write_event_to_trace).
Proof.
  intros Hl s Hs. rewrite for_each_write. simpl. by apply handles_ok_emit.
Qed.

Lemma start_host_event_closed d h s :
  start_host_event d h s
  = let s1 := set_new_host_events (delete d (new_host_events s))
                (emit (default [] (new_host_events s !! d)) s) in
    match started_host_event s !! hid h with
    | None =>
        Ok tt (set_started_host_event
                 (<[hid h := h]> (started_host_event s)) s1)
    | Some _ => Raise AssertionError s1
    end.
Proof.
  unfold start_host_event, bind, gets. rewrite for_each_write.
  unfold modify. cbn [started_host_event set_new_host_events emit
                      set_output set_log].
  destruct (started_host_event s !! hid h) eqn:E; reflexivity.
Qed.

Lemma finish_host_event_closed d s :
  finish_host_event d s
  = match started_host_event s !! d with
    | Some h =>
        Ok tt (set_new_host_events (delete d (new_host_events s))
                 (emit (default [] (new_host_events s !! d))
                    (set_started_host_event
                       (delete d (started_host_event s))
                       (emit [OfHostHandle h] s))))
    | None => Raise AssertionError s
    end.
Proof.
  unfold finish_host_event, bind, gets, subscript.
  destruct (started_host_event s !! d) as [h|] eqn:E; [|reflexivity].
  cbn [py_assert bool_decide decide_rel is_Some_dec ret].
  rewrite write_closed. unfold modify. rewrite for_each_write. reflexivity.
Qed.

Lemma add_successor_to_host_event_closed d event p s :
  add_successor_to_host_event d event p s
  = match started_host_event s !! d with
    | Some h =>
        Ok tt (set_new_host_events
                 (<[d := default [] (new_host_events s !! d) ++ [event]]>
                    (new_host_events s))
                 (set_started_host_event
                    (<[d := match p with
                            | Some p => host_append_pid_out p h
                            | None => h
                            end]> (started_host_event s)) s))
    | None =>
        Ok tt (emit [event]
                 (set_log
                    (log s ++ [Info "Writing host event even though there was no associated begin event."])
                    s))
    end.
Proof.
  unfold add_successor_to_host_event, is_host_event_started, bind, gets.
  destruct (started_host_event s !! d) as [h|] eqn:E; [|reflexivity].
  cbn [bool_decide decide_rel is_Some_dec].
  destruct s; simpl in E.
  destruct p as [p|]; unfold bind, gets, subscript, modify, ret,
    set_new_host_events, set_started_host_event; simpl;
    rewrite ?E; simpl; try reflexivity.
  by rewrite (insert_id _ d h) by done.
Qed.

Lemma handles_ok_set_started_host m s :
  handles_ok s → handles_ok (set_started_host_event m s).
Proof. by intros (Ho & Hs & Hq & Hh). Qed.

Lemma preserves_start_host_event d h : preserves (start_host_event d h).
Proof.
  intros s Hs. rewrite start_host_event_closed. cbv zeta.
  assert (handles_ok
            (set_new_host_events (delete d (new_host_events s))
               (emit (default [] (new_host_events s !! d)) s))) as H1.
  { apply handles_ok_set_host_queue.
    - apply delete_ok. by destruct Hs as (_ & _ & _ & ?).
    - apply handles_ok_emit; [by apply handles_ok_host_queue | done]. }
  destruct (started_host_event s !! hid h); [done|]. simpl.
  by apply handles_ok_set_started_host.
Qed.

Lemma preserves_finish_host_event d : preserves (finish_host_event d).
Proof.
  intros s Hs. rewrite finish_host_event_closed.
  destruct (started_host_event s !! d) as [h|] eqn:E; [|done]. simpl.
  apply handles_ok_set_host_queue.
  { apply delete_ok. by destruct Hs as (_ & _ & _ & ?). }
  apply handles_ok_emit; [by apply handles_ok_host_queue|].
  apply handles_ok_set_started_host.
  apply handles_ok_emit; [|done]. by constructor.
Qed.

Lemma preserves_add_successor_to_host_event d event p :
  event_ok event → preserves (add_successor_to_host_event d event p).
Proof.
  intros He s Hs. rewrite add_successor_to_host_event_closed.
  destruct (started_host_event s !! d) as [h|] eqn:E; simpl.
  - apply handles_ok_set_host_queue.
    + apply insert_ok; [|by destruct Hs as (_ & _ & _ & ?)].
      apply Forall_app. split; [by apply handles_ok_host_queue|].
      by constructor.
    + by apply handles_ok_set_started_host.
  - apply handles_ok_emit; [by constructor|]. by apply (handles_ok_view s).
Qed.

(** Every handler, and every line of the controller, keeps the invariant. *)
Ltac preserves :=
  repeat first
    [ apply preserves_start_switch_event
    | apply preserves_finish_switch_event
    | apply preserves_start_host_event
    | apply preserves_finish_host_event
    | solve [apply frames_preserves; frames]
    | match goal with
      | |- preserves (bind _ _) => apply preserves_bind; [|intros]
      end ].

Lemma preserves_handler event h : handler event = Some h → preserves h.
Proof.
  destruct event; simpl; intros [= <-].
  - unfold handle_switch_ph_begin. preserves.
    unfold HbPacketHandle, buffered_have_pid_out. simpl. lia.
  - apply preserves_finish_switch_event.
  - unfold handle_switch_mh_begin. preserves.
    + unfold HbMessageHandle, buffered_have_pid_out. simpl. lia.
    + apply frames_preserves, frames_match_unmatched_controller_msgout.
  - apply preserves_finish_switch_event.
  - unfold handle_switch_ms. preserves. by apply preserves_add_successor.
  - unfold handle_switch_ps. preserves. by apply preserves_add_successor.
  - by apply preserves_add_operation.
  - by apply preserves_add_operation.
  - by apply preserves_add_operation.
  - by apply preserves_buf_put.
  - unfold handle_switch_buf_get. preserves.
    + destruct a; preserves. apply preserves_update_started.
      intros h. unfold buffered_have_pid_out. by simpl.
    + by apply preserves_add_operation.
  - unfold handle_switch_pu_begin. preserves.
  - unfold handle_switch_pu_end. preserves.
  - unfold handle_host_ph_begin. preserves.
  - apply preserves_finish_host_event.
  - unfold handle_host_ps. preserves.
    by apply preserves_add_successor_to_host_event.
Qed.

Lemma preserves_add_controller_hb_edge a b :
  preserves (add_controller_hb_edge a b).
Proof.
  unfold add_controller_hb_edge. preserves.
  - intros s Hs. rewrite write_closed. simpl.
    apply handles_ok_emit; [by constructor | done].
  - intros s Hs. rewrite write_closed. simpl.
    apply handles_ok_emit; [by constructor | done].
Qed.

Lemma preserves_handle_line_match line : preserves (handle_line_match line).
Proof.
  destruct line; simpl.
  - unfold controller_ack_in. preserves.
  - unfold controller_ack_out. preserves.
    destruct a as [m|]; preserves.
    destruct a as [m'|]; preserves.
    apply preserves_add_controller_hb_edge.
Qed.

Lemma handles_ok_init : handles_ok init.
Proof.
  unfold handles_ok, init. simpl. split; [constructor|].
  split; [|split]; intros d x; by rewrite lookup_empty.
Qed.

Lemma handles_ok_step s i : handles_ok s → handles_ok (step s i).
Proof.
  intros Hs. destruct i as [event|line]; simpl.
  - unfold handle_no_exceptions.
    destruct (handler event) as [h|] eqn:Hh; [|done].
    pose proof (preserves_handler event h Hh s Hs) as H.
    destruct (h s) as [? s'|e s']; simpl in H; [done|].
    by apply (handles_ok_view s').
  - by apply preserves_handle_line_match.
Qed.

Lemma handles_ok_run inputs s : handles_ok s → handles_ok (run inputs s).
Proof.
  unfold run. revert s. induction inputs as [|i inputs IH]; intros s Hs;
    [done|].
  simpl. apply IH. by apply handles_ok_step.
Qed.

(** C8: a [TraceSwitchBufferPut] for a dpid with a started handle goes
    through exactly when the handle is an [HbPacketHandle] whose [pid_in] is
    the registry's tag of the packet, the two assertions; then the handle
    stored for the dpid has a newly allocated pid_out, above every tag the
    registry held, at the end of its [pid_out] and the event at the end of
    its [operations], its other attributes being as before.  Otherwise an
    assertion fails and the handle is left as it was.  So every
    [HbPacketHandle] in the trace of any run that has a [BufferPut] among its
    operations has a pid_out for it. *)
Theorem buffer_put_appends_pid_out d packet_ in_port_ buffer_id h s :
  let event := TraceSwitchBufferPut d packet_ in_port_ buffer_id in
  let got := get_tag (packet_id packet_) (pids s) in
  let new := new_tag (packet_id packet_) got.2 in
  started_switch_event s !! d = Some h →
  ((∃ s', handle_switch_buf_put event d packet_ s = Ok tt s')
   ↔ class h = HbPacketHandle_class ∧ pid_in h = Some got.1)
  ∧ (class h = HbPacketHandle_class → pid_in h = Some got.1 →
     handle_switch_buf_put event d packet_ s
     = Ok tt (set_started_switch_event
                (<[d := append_operation event (append_pid_out new.1 h)]>
                   (started_switch_event s))
                (set_pids new.2 s))
     ∧ (registry_ok (pids s) →
        (∀ o tag, tags (pids s) !! o = Some tag → tag < new.1)
        ∧ pid_in h ≠ Some new.1)
     ∧ ∃ h',
         started_switch_event
           (state_of (handle_switch_buf_put event d packet_ s)) !! d
         = Some h'
         ∧ operations h' = operations h ++ [event]
         ∧ pid_out h' = pid_out h ++ [new.1]
         ∧ (class h', dpid h', pid_in h', mid_in h', mid_out h')
           = (class h, dpid h, pid_in h, mid_in h, mid_out h)
         ∧ (packet h', in_port h', msg h', msg_type h', controller_id h',
            msg_flowmod h')
           = (packet h, in_port h, msg h, msg_type h, controller_id h,
              msg_flowmod h))
  ∧ (¬ (class h = HbPacketHandle_class ∧ pid_in h = Some got.1) →
     ∃ s', handle_switch_buf_put event d packet_ s = Raise AssertionError s'
           ∧ started_switch_event s' = started_switch_event s
           ∧ output s' = output s)
  ∧ (∀ inputs h',
       OfSwitchHandle h' ∈ output (run inputs init) →
       class h' = HbPacketHandle_class →
       (∃ op, op ∈ operations h' ∧ is_BufferPut op = true) →
       buffered_have_pid_out h' ∧ pid_out h' ≠ []).
Proof.
  intros event got new Hh.
  pose proof (handle_switch_buf_put_closed event d packet_ s eq_refl) as Hc.
  rewrite Hh in Hc. cbv zeta in Hc. fold got in Hc. fold new in Hc.
  split; [|split; [|split]].
  - rewrite Hc. split.
    + intros [s' H]. destruct (decide (class h = HbPacketHandle_class));
        [|done]. destruct (decide (Some got.1 = pid_in h)); done.
    + intros [H1 H2]. rewrite decide_True, decide_True by done. by eexists.
  - intros H1 H2. rewrite Hc, decide_True, decide_True by done.
    split; [done|]. split.
    + intros Hr.
      destruct (get_tag_ok (packet_id packet_) (pids s) Hr)
        as (Hr1 & Hlt & Hle).
      fold got in Hr1, Hlt, Hle.
      assert (new.1 = next_tag got.2) as -> by reflexivity.
      split.
      * intros o tag Ho. specialize (Hr o tag Ho). lia.
      * rewrite H2. intros [= Heq]. lia.
    + exists (append_operation event (append_pid_out new.1 h)).
      split; [|done]. cbn [state_of]. unfold set_started_switch_event.
      cbn [started_switch_event]. by rewrite lookup_insert_eq.
  - intros Hno. rewrite Hc.
    destruct (decide (class h = HbPacketHandle_class)) as [H1|H1].
    + destruct (decide (Some got.1 = pid_in h)) as [H2|H2]; [by destruct Hno|].
      by eexists.
    + by eexists.
  - intros inputs h' Hin Hclass (op & Hop & Hput).
    pose proof (handles_ok_run inputs init handles_ok_init) as (Ho & _).
    rewrite Forall_forall in Ho. specialize (Ho _ Hin). simpl in Ho.
    split; [done|]. intros Hnil. unfold buffered_have_pid_out in Ho.
    rewrite Hnil in Ho. simpl in Ho.
    assert (op ∈ filter (λ op, is_BufferPut op = true) (operations h')) as Hf.
    { by apply list_elem_of_filter. }
    destruct (filter _ (operations h')); [by apply elem_of_nil in Hf|].
    simpl in Ho. lia.
Qed.

(** *** The sample run *)

Section Sample.
Import LoggerSample.

Lemma sample_after_begin :
  run [Simulator (TraceSwitchPacketHandleBegin 1 pkt 2)] init = after_begin.
Proof. by vm_compute. Qed.

Lemma sample_line_buffered :
  run (packet_handled ++ controller_lines) init = line_buffered.
Proof. by vm_compute. Qed.

Lemma sample_flow_mod_begun :
  step line_buffered flow_mod_begin = flow_mod_begun.
Proof. by vm_compute. Qed.

(** C3, on the sample run.  The second line of the controller is buffered,
    and the mid_out of its inbound side can be found.  When the FLOW_MOD
    reaches the switch, the line is taken out of the buffer, the call to
    [find_controller_packet_in] raises [TypeError], which
    [handle_no_exceptions] prints, and the trace receives nothing: no
    [HbControllerHandle], no [HbControllerSend], then or later. *)
Theorem buffered_line_is_lost_to_a_TypeError :
  unmatched_lines_controller_msgout line_buffered = [(5, "PI", 5, "FM")]
  ∧ find_controller_packet_in 5 "PI" line_buffered = Ok (Some 2) line_buffered
  ∧ handle_switch_mh_begin 1 "c1" flow_mod None line_buffered
    = Raise TypeError
        (set_log (removelast (log flow_mod_begun)) flow_mod_begun)
  ∧ last (log flow_mod_begun) = Some (Traceback TypeError)
  ∧ output flow_mod_begun = output line_buffered
  ∧ filter (λ e, is_controller_event e = true) (output flow_mod_begun) = []
  ∧ unmatched_lines_controller_msgout flow_mod_begun = []
  ∧ unmatched_HbMessageHandle flow_mod_begun = [].
Proof. repeat split; by vm_compute. Qed.

Lemma operation_without_handle_is_skipped_witness :
  is_flow_table_operation table_write = true
  ∧ trace_dpid table_write = Some 1
  ∧ started_switch_event init !! 1 = None
  ∧ output (handle_no_exceptions table_write init) = output init
  ∧ started_switch_event (handle_no_exceptions table_write init)
    = started_switch_event init.
Proof.
  assert (started_switch_event init !! 1 = None) as Hnone by reflexivity.
  destruct (operation_without_handle_is_skipped table_write 1 init
              eq_refl eq_refl Hnone) as (_ & _ & _ & Ho & Hs & _).
  repeat split; assumption.
Defined.

Lemma handle_is_emitted_before_its_successors_witness :
  dpid begun = 1
  ∧ started_switch_event init !! 1 = None
  ∧ Forall (on_dpid 1) during_handle
  ∧ ∃ s',
      (start_switch_event 1 begun ;; for_each during_handle (act 1) ;;
       finish_switch_event 1) init = Ok tt s'
      ∧ output s'
        = output init
          ++ default [] (new_switch_events init !! 1)
          ++ [OfSwitchHandle (foldl accrue begun during_handle)]
          ++ successors during_handle
      ∧ started_switch_event s' !! 1 = None
      ∧ new_switch_events s' !! 1 = None.
Proof.
  assert (started_switch_event init !! 1 = None) as Hnone by reflexivity.
  assert (Forall (on_dpid 1) during_handle) as Hon.
  { repeat constructor. }
  split; [reflexivity|]. split; [exact Hnone|]. split; [exact Hon|].
  destruct (handle_is_emitted_before_its_successors 1 begun during_handle
              init eq_refl Hnone Hon) as (s' & Hrun & Hout & Hst & Hq & _).
  exists s'. repeat split; assumption.
Defined.

Lemma buffer_put_appends_pid_out_witness :
  started_switch_event after_begin !! 1 = Some begun
  ∧ handle_switch_buf_put buffer_put 1 pkt after_begin
    = Ok tt (set_started_switch_event
               (<[1 := append_operation buffer_put (append_pid_out 2 begun)]>
                  (started_switch_event after_begin))
               (set_pids (new_tag 100 (pids after_begin)).2 after_begin))
  ∧ (∃ h',
       started_switch_event
         (state_of (handle_switch_buf_put buffer_put 1 pkt after_begin)) !! 1
       = Some h'
       ∧ operations h' = [buffer_put] ∧ pid_out h' = [2])
  ∧ OfSwitchHandle packet_handle_written ∈ output (run packet_handled init)
  ∧ buffer_put ∈ operations packet_handle_written
  ∧ pid_out packet_handle_written ≠ [].
Proof.
  assert (started_switch_event after_begin !! 1 = Some begun) as Hh
    by reflexivity.
  assert (OfSwitchHandle packet_handle_written
          ∈ output (run packet_handled init)) as Hin.
  { apply (bool_decide_unpack _); vm_compute; exact I. }
  assert (buffer_put ∈ operations packet_handle_written) as Hop.
  { apply (bool_decide_unpack _); vm_compute; exact I. }
  split; [exact Hh|].
  destruct (buffer_put_appends_pid_out 1 pkt 2 7 begun after_begin Hh)
    as (_ & Hput & _ & Hrun).
  destruct Hput as (Hput & _ & h' & Hh' & Hops & Hpid & _);
    [reflexivity | reflexivity |].
  split; [exact Hput|]. split.
  { exists h'. split; [exact Hh'|]. split; [exact Hops | exact Hpid]. }
  split; [exact Hin|]. split; [exact Hop|].
  apply (Hrun packet_handled packet_handle_written Hin eq_refl).
  exists buffer_put. split; [exact Hop | reflexivity].
Defined.

Lemma sample_rebound : run rebinding init = rebound.
Proof. by vm_compute. Qed.

(** C4 as stated fails once a swid is bound to a dpid that is bound to
    another swid.  Two buffered lines name the same FLOW_MOD for the switches
    6 and 7; when switch 2 begins to handle it, both swids are bound to dpid
    2, and dpid 2 to the later one, 7.  Switch 2 then sends a message, and the
    line of the controller that reports it for switch 6 aborts on the
    assertion of the search, although the tuple is stored under dpid 2 and
    [find_controller_packet_in] has not returned [None]. *)
Lemma misbound_swid_aborts_though_the_tuple_is_queued :
  run rebinding init = rebound
  ∧ swid_to_dpid rebound !! 6 = Some 2
  ∧ dpid_to_swid rebound !! 2 = Some 7
  ∧ sent_under rebound 2 (5, "X")
  ∧ ¬ no_outbound rebound 6 "X"
  ∧ find_controller_packet_in 6 "X" rebound = Raise AssertionError rebound
  ∧ controller_ack_in 6 "X" rebound = Raise AssertionError rebound.
Proof.
  assert (sent_under rebound 2 (5, "X")) as Hs.
  { exists [(5, "X")].
    split; apply (bool_decide_unpack _); vm_compute; exact I. }
  split; [exact sample_rebound|]. split; [reflexivity|].
  split; [reflexivity|]. split; [exact Hs|]. split.
  - intros [_ Hnone]. by apply (Hnone 2 5).
  - split; by vm_compute.
Qed.

Lemma sample_packet_in_queued :
  run [Simulator (TraceSwitchMessageSend 1 0 "c1" packet_in)] init
  = packet_in_queued.
Proof. by vm_compute. Qed.

Lemma controller_ack_in_aborts_iff_not_found_or_misbound_witness :
  keys_unique (unmatched_HbMessageSend packet_in_queued)
  ∧ keys_unique (unmatched_HbMessageSend rebound)
  ∧ (∃ s', controller_ack_in 5 "PI" packet_in_queued = Ok tt s'
           ∧ controller_msgin_to_mid_out s' !! (5, "PI") = Some 2)
  ∧ controller_ack_in 5 "FM" packet_in_queued
    = Raise AssertionError packet_in_queued
  ∧ controller_ack_in 6 "X" rebound = Raise AssertionError rebound.
Proof.
  assert (keys_unique (unmatched_HbMessageSend packet_in_queued)) as Hk.
  { apply (bool_decide_unpack _); vm_compute; exact I. }
  assert (keys_unique (unmatched_HbMessageSend rebound)) as Hk'.
  { apply (bool_decide_unpack _); vm_compute; exact I. }
  split; [exact Hk|]. split; [exact Hk'|].
  destruct (controller_ack_in_aborts_iff_not_found_or_misbound
              5 "PI" packet_in_queued Hk) as (_ & _ & Hret & Hrec & _).
  destruct (controller_ack_in_aborts_iff_not_found_or_misbound
              5 "FM" packet_in_queued Hk) as (_ & Hnone & _).
  destruct (controller_ack_in_aborts_iff_not_found_or_misbound
              6 "X" rebound Hk') as (_ & Hmis & _).
  split; [|split].
  - destruct Hret as [_ [s' Hs']].
    { right. split; [by intros d|]. exists 1, 2. split; [reflexivity|].
      exists [(2, "PI")].
      split; apply (bool_decide_unpack _); vm_compute; exact I. }
    exists s'. split; [exact Hs'|].
    destruct (Hrec s' Hs') as (m & Hmap & [Hold|(_ & d & _ & Hsent & _)]);
      [done|].
    rewrite Hmap. destruct Hsent as (l & Hl & Hin).
    change (unmatched_HbMessageSend packet_in_queued)
      with [(1, [(2, "PI")])] in Hl.
    apply list_elem_of_singleton in Hl. injection Hl as _ ->.
    apply list_elem_of_singleton in Hin. injection Hin as ->.
    by rewrite lookup_insert_eq.
  - apply Hnone. split; [reflexivity|]. split; [reflexivity|]. left.
    split; [reflexivity|]. split; [|by intros d].
    split; [reflexivity|]. intros d m _ (l & Hl & Hin).
    change (unmatched_HbMessageSend packet_in_queued)
      with [(1, [(2, "PI")])] in Hl.
    apply list_elem_of_singleton in Hl. injection Hl as _ ->.
    apply list_elem_of_singleton in Hin. done.
  - apply Hmis. split; [reflexivity|]. split; [reflexivity|]. right.
    exists 2. split; [reflexivity|]. left. split; [reflexivity|].
    by exists 7.
Defined.

End Sample.

End LoggerFacts.
